(** * world-icons-bot: the card repository of [bot.py], embedded and verified

    The development follows [bot.py]:
    - [normalize] and the text helpers it relies on;
    - the [Card] and [Tier] records with their [from_dict] constructors;
    - [CardRepository]: [reload], [_tiers_from_cards], [total_weight],
      [probability], [tier_for_card], [summary_by_tier], [find_card],
      [top_cards];
    - the [lootrate] command with its chunking loop;
    - the loop of the [verify] command over the assets of a wallet.

    Conventions.
    - Python [int] is [Z]; Python [str] is [string], restricted to the
      characters of the ASCII range (a character above 127 is neither
      whitespace nor cased in this model).
    - Python [float] results ([probability], percentages) are exact rationals
      of [Q]: the model computes the real number the float approximates.
    - An exception is a value of [exn]; code that can raise returns a
      [result]. *)

From Stdlib Require Import ZArith QArith List String Ascii Bool Lia.
From Stdlib Require Import Permutation Sorting.Sorted DecimalString.
Import ListNotations.

Local Open Scope string_scope.
Local Open Scope list_scope.
Local Open Scope Z_scope.

(** ** Text: [str.strip], [str.lower], [re.sub(r"\s+", " ", _)], [in] *)

(** [str.isspace] on one ASCII character, which is also what [\s] matches in
    a [str] pattern: TAB, LF, VT, FF, CR (9-13), FS, GS, RS, US (28-31) and
    SPACE (32). *)
Definition is_space (c : ascii) : bool :=
  let n := nat_of_ascii c in
  ((9 <=? n)%nat && (n <=? 13)%nat) || ((28 <=? n)%nat && (n <=? 32)%nat).

(** [str.lower] on one ASCII character. *)
Definition lower_char (c : ascii) : ascii :=
  let n := nat_of_ascii c in
  if ((65 <=? n)%nat && (n <=? 90)%nat) then ascii_of_nat (n + 32) else c.

Fixpoint lower (s : string) : string :=
  match s with
  | EmptyString => EmptyString
  | String c r => String (lower_char c) (lower r)
  end.

Fixpoint lstrip (s : string) : string :=
  match s with
  | EmptyString => EmptyString
  | String c r => if is_space c then lstrip r else s
  end.

Definition is_empty (s : string) : bool :=
  match s with EmptyString => true | String _ _ => false end.

Fixpoint rstrip (s : string) : string :=
  match s with
  | EmptyString => EmptyString
  | String c r =>
      let r' := rstrip r in
      if is_space c && is_empty r' then EmptyString else String c r'
  end.

(** [s.strip()] *)
Definition strip (s : string) : string := rstrip (lstrip s).

(** [re.sub(r"\s+", " ", s)]: the scan replaces every maximal run of
    whitespace by one space; [in_run] records that the previous character
    belonged to the run being replaced. *)
Fixpoint sub_ws (in_run : bool) (s : string) : string :=
  match s with
  | EmptyString => EmptyString
  | String c r =>
      if is_space c
      then (if in_run then sub_ws true r else String " " (sub_ws true r))
      else String c (sub_ws false r)
  end.

Definition re_sub_ws (s : string) : string := sub_ws false s.

(** [normalize(s)] = [re.sub(r"\s+", " ", (s or "").strip().lower())] *)
Definition normalize (s : string) : string := re_sub_ws (lower (strip s)).

(** [q in s] on strings: [q] occurs in [s] at some position. *)
Fixpoint contains (q s : string) : bool :=
  String.prefix q s ||
  match s with
  | EmptyString => false
  | String _ r => contains q r
  end.

(** [str(n)] and [f"{n}"] for an [int]. *)
Definition str_of_int (n : Z) : string := NilZero.string_of_int (Z.to_int n).

(** ** Decoded JSON documents, exceptions, files *)

(** What [json.load] returns. A number written with a fraction or an exponent
    is a Python [float]; it is kept as its literal, and what [int] and [str]
    make of it is left to the builtins below. A [JDict] lists the bindings of
    the decoded [dict], whose keys are distinct. *)
#[warnings="-register-all"]
Inductive json : Type :=
| JNull
| JBool (b : bool)
| JInt (n : Z)
| JFloat (literal : string)
| JStr (s : string)
| JList (l : list json)
| JDict (d : list (string * json)).

Inductive exn : Type :=
| FileNotFoundError | JSONDecodeError | AttributeError | TypeError | ValueError.

Inductive result (A : Type) : Type :=
| Ok (a : A)
| Raise (e : exn).
Arguments Ok {A} a.
Arguments Raise {A} e.

(** What is found at a path: nothing, a file [json.load] rejects, or a file
    that decodes to a document. *)
Inductive file : Type :=
| Absent
| Malformed
| Document (v : json).

Record files : Type := mk_files { cards_path : file; tiers_path : file }.

(** [os.path.exists(path)] *)
Definition path_exists (f : file) : bool :=
  match f with Absent => false | _ => true end.

(** [load_json(path)] *)
Definition load_json (f : file) : result json :=
  match f with
  | Absent => Raise FileNotFoundError
  | Malformed => Raise JSONDecodeError
  | Document v => Ok v
  end.

(** [d.get(k, default)] *)
Fixpoint dict_get {V : Type} (d : list (string * V)) (k : string) (default : V) : V :=
  match d with
  | [] => default
  | (k', v) :: r => if String.eqb k' k then v else dict_get r k default
  end.

(** [k in d] *)
Fixpoint dict_mem {V : Type} (k : string) (d : list (string * V)) : bool :=
  match d with
  | [] => false
  | (k', _) :: r => String.eqb k' k || dict_mem k r
  end.

(** [d[k] = v] on an insertion-ordered [dict]: an existing key keeps its
    place, a new key goes last. *)
Fixpoint dict_set {V : Type} (k : string) (v : V) (d : list (string * V))
  : list (string * V) :=
  match d with
  | [] => [(k, v)]
  | (k', v') :: r =>
      if String.eqb k' k then (k', v) :: r else (k', v') :: dict_set k v r
  end.

(** A list comprehension whose element expression can raise: the first
    exception aborts it. *)
Fixpoint comprehension {A B : Type} (f : A -> result B) (l : list A)
  : result (list B) :=
  match l with
  | [] => Ok []
  | x :: r =>
      match f x with
      | Raise e => Raise e
      | Ok y =>
          match comprehension f r with
          | Raise e => Raise e
          | Ok ys => Ok (y :: ys)
          end
      end
  end.

(** Iterating a decoded document, as [for c in raw_cards] does: a list gives
    its items, a dict its keys, a string its characters; anything else is not
    iterable. *)
Definition py_iter (v : json) : result (list json) :=
  match v with
  | JList l => Ok l
  | JDict d => Ok (map (fun kv => JStr (fst kv)) d)
  | JStr s => Ok (map (fun c => JStr (String c EmptyString)) (list_ascii_of_string s))
  | JNull | JBool _ | JInt _ | JFloat _ => Raise TypeError
  end.

(** [sorted(l, key=key, reverse=True)]: a stable sort, so items with equal
    keys keep the order they had in [l]. *)
Fixpoint insert_desc {A : Type} (key : A -> Z) (x : A) (l : list A) : list A :=
  match l with
  | [] => [x]
  | y :: r => if key x <? key y then y :: insert_desc key x r else x :: l
  end.

Definition sorted_desc {A : Type} (key : A -> Z) (l : list A) : list A :=
  fold_right (insert_desc key) [] l.

(** ** Python's [str] and [int] on decoded values *)

Section Builtins.

(** [str(v)] for a float, a list or a dict, and [int(v)] for a string or a
    float ([None] when [int] raises, with [ValueError] or, for an infinite
    float, [OverflowError]; the model reports both as [ValueError]): Python's
    own conversions, which the repository does not define. *)
Variable py_str_other : json -> string.
Variable py_int_other : json -> option Z.

(** [str(v)] *)
Definition py_str (v : json) : string :=
  match v with
  | JStr s => s
  | JInt n => str_of_int n
  | JNull => "None"
  | JBool true => "True"
  | JBool false => "False"
  | JFloat _ | JList _ | JDict _ => py_str_other v
  end.

(** [int(v)] *)
Definition py_int (v : json) : result Z :=
  match v with
  | JInt n => Ok n
  | JBool b => Ok (if b then 1 else 0)
  | JStr _ | JFloat _ =>
      match py_int_other v with
      | Some n => Ok n
      | None => Raise ValueError
      end
  | JNull | JList _ | JDict _ => Raise TypeError
  end.

End Builtins.

(** ** The records [Card] and [Tier]

    [from_dict] calls [d.get], which only a dict has: on any other value the
    attribute lookup raises. [str] cannot raise on a decoded value, so the one
    conversion that can, [int], decides the outcome. *)

Module Card.
Record t : Type := mk
  { key : string; name : string; uri : string; image_url : string;
    weight : Z }.

Definition from_dict (py_str_other : json -> string)
  (py_int_other : json -> option Z) (d : json) : result t :=
  match d with
  | JDict m =>
      match py_int py_int_other (dict_get m "weight" (JInt 0)) with
      | Raise e => Raise e
      | Ok w =>
          Ok (mk (py_str py_str_other (dict_get m "key" (JStr "")))
                 (py_str py_str_other (dict_get m "name" (JStr "")))
                 (py_str py_str_other (dict_get m "uri" (JStr "")))
                 (py_str py_str_other (dict_get m "image_url" (JStr "")))
                 w)
      end
  | _ => Raise AttributeError
  end.
End Card.

Module Tier.
Record t : Type := mk { name : string; min_weight : Z }.

Definition from_dict (py_str_other : json -> string)
  (py_int_other : json -> option Z) (d : json) : result t :=
  match d with
  | JDict m =>
      match py_int py_int_other (dict_get m "min_weight" (JInt 0)) with
      | Raise e => Raise e
      | Ok w => Ok (mk (py_str py_str_other (dict_get m "name" (JStr ""))) w)
      end
  | _ => Raise AttributeError
  end.
End Tier.

(** ** [CardRepository] *)

(** The two attributes [reload] assigns; the paths never change and are part
    of the [files] a call reads. *)
Record repo : Type := mk_repo { _cards : list Card.t; _tiers : list Tier.t }.

(** A method body that reads and assigns [self] and may raise: the state
    reached when the exception leaves the body is the one the caller sees. *)
Definition M (A : Type) : Type := repo -> result A * repo.

Definition ret {A : Type} (a : A) : M A := fun self => (Ok a, self).

Definition bind {A B : Type} (m : M A) (k : A -> M B) : M B :=
  fun self =>
    match m self with
    | (Ok a, self') => k a self'
    | (Raise e, self') => (Raise e, self')
    end.

Definition lift {A : Type} (r : result A) : M A := fun self => (r, self).

Definition set_cards (cs : list Card.t) : M unit :=
  fun self => (Ok tt, mk_repo cs (_tiers self)).

Definition set_tiers (ts : list Tier.t) : M unit :=
  fun self => (Ok tt, mk_repo (_cards self) ts).

Definition read {A : Type} (f : repo -> A) : M A := fun self => (Ok (f self), self).

Notation "x <- m ;; k" := (bind m (fun x => k))
  (at level 61, m at next level, right associativity).
Notation "m ;;; k" := (bind m (fun _ => k))
  (at level 61, right associativity).

(** The set comprehension [{c.weight for c in self._cards if c.weight > 0}],
    as a duplicate-free list; the order in which Python enumerates the set
    does not matter, [sorted] being applied to distinct integers. *)
Definition positive_weights (cs : list Card.t) : list Z :=
  nodup Z.eq_dec (map Card.weight (filter (fun c => Card.weight c >? 0) cs)).

Definition _tiers_from_cards (self : repo) : list Tier.t :=
  let weights := sorted_desc (fun w => w) (positive_weights (_cards self)) in
  map (fun w => Tier.mk ("Poids >= " ++ str_of_int w) w) weights.

Definition is_nil {A : Type} (l : list A) : bool :=
  match l with [] => true | _ => false end.

Section Reload.

Variable py_str_other : json -> string.
Variable py_int_other : json -> option Z.

(** The right-hand side of the first assignment of [reload]:
    [[Card.from_dict(c) for c in load_json(self.cards_path)]]. *)
Definition read_cards (fs : files) : result (list Card.t) :=
  match load_json (cards_path fs) with
  | Raise e => Raise e
  | Ok raw_cards =>
      match py_iter raw_cards with
      | Raise e => Raise e
      | Ok items => comprehension (Card.from_dict py_str_other py_int_other) items
      end
  end.

(** The local [tiers] of [reload] before the fallback to the cards. *)
Definition read_tiers (fs : files) : result (list Tier.t) :=
  if path_exists (tiers_path fs) then
    match load_json (tiers_path fs) with
    | Raise e => Raise e
    | Ok (JList raw_tiers) =>
        comprehension (Tier.from_dict py_str_other py_int_other) raw_tiers
    | Ok _ => Ok []
    end
  else Ok [].

Definition reload (fs : files) : M unit :=
  cards <- lift (read_cards fs) ;;
  set_cards cards ;;;
  tiers <- lift (read_tiers fs) ;;
  tiers <- (if is_nil tiers then read _tiers_from_cards else ret tiers) ;;
  set_tiers (sorted_desc Tier.min_weight tiers).

(** [CardRepository(cards_path, tiers_path)]: [__init__] assigns two empty
    lists and calls [reload]; when [reload] raises, no object is built. *)
Definition new (fs : files) : result repo :=
  match reload fs (mk_repo [] []) with
  | (Ok _, self) => Ok self
  | (Raise e, _) => Raise e
  end.

(** The repository states a program can hold: a constructed object, and
    whatever any number of later [reload] calls, failed or not, leave. *)
Inductive reachable : repo -> Prop :=
| reachable_new fs self : new fs = Ok self -> reachable self
| reachable_reload fs self r self' :
    reachable self -> reload fs self = (r, self') -> reachable self'.

End Reload.

Definition total_weight (self : repo) : Z :=
  fold_left (fun acc c => acc + Z.max 0 (Card.weight c)) (_cards self) 0.

Definition probability (self : repo) (card : Card.t) : Q :=
  let total := total_weight self in
  if total >? 0 then (inject_Z (Card.weight card) / inject_Z total)%Q else 0%Q.

Fixpoint tier_scan (w : Z) (ts : list Tier.t) : string :=
  match ts with
  | [] => "Inconnu"
  | t :: r => if w >=? Tier.min_weight t then Tier.name t else tier_scan w r
  end.

Definition tier_for_card (self : repo) (card : Card.t) : string :=
  tier_scan (Card.weight card) (_tiers self).

(** [summary_by_tier], one definition per loop, over insertion-ordered dicts. *)

(** [for c in self._cards: sums[tier] = sums.get(tier, 0) + max(0, c.weight)] *)
Definition summary_sums (self : repo) : list (string * Z) :=
  fold_left
    (fun sums c =>
       let tier := tier_for_card self c in
       dict_set tier (dict_get sums tier 0 + Z.max 0 (Card.weight c)) sums)
    (_cards self) [].

(** [(wsum / total * 100) if total > 0 else 0.0] *)
Definition pct_of (total wsum : Z) : Q :=
  if total >? 0 then (inject_Z wsum / inject_Z total * 100)%Q else 0%Q.

(** [for tier, wsum in sums.items(): out[tier] = (wsum, pct)] *)
Definition summary_out (total : Z) (sums : list (string * Z))
  : list (string * (Z * Q)) :=
  fold_left
    (fun out item => dict_set (fst item) (snd item, pct_of total (snd item)) out)
    sums [].

(** [for t in self._tiers: if t.name in out: ordered[t.name] = out[t.name]];
    [out[k]] is read under the guard [k in out], so the default given to
    [dict_get] is never returned. *)
Definition summary_ordered (tiers : list Tier.t) (out : list (string * (Z * Q)))
  : list (string * (Z * Q)) :=
  fold_left
    (fun ordered t =>
       if dict_mem (Tier.name t) out
       then dict_set (Tier.name t) (dict_get out (Tier.name t) (0, 0%Q)) ordered
       else ordered)
    tiers [].

(** [for k, v in out.items(): if k not in ordered: ordered[k] = v] *)
Definition summary_rest (out ordered : list (string * (Z * Q)))
  : list (string * (Z * Q)) :=
  fold_left
    (fun ordered item =>
       if negb (dict_mem (fst item) ordered)
       then dict_set (fst item) (snd item) ordered
       else ordered)
    out ordered.

Definition summary_by_tier (self : repo) : list (string * (Z * Q)) :=
  let total := total_weight self in
  let sums := summary_sums self in
  let out := summary_out total sums in
  let ordered := summary_ordered (_tiers self) out in
  summary_rest out ordered.

(** [for c in cards: if test(c): return c], falling through with [None]. *)
Fixpoint first_card (test : Card.t -> bool) (cs : list Card.t) : option Card.t :=
  match cs with
  | [] => None
  | c :: r => if test c then Some c else first_card test r
  end.

Definition find_card (self : repo) (query : string) : option Card.t :=
  let q := normalize query in
  if is_empty q then None else
  match first_card (fun c => String.eqb (normalize (Card.key c)) q) (_cards self) with
  | Some c => Some c
  | None =>
  match first_card (fun c => String.eqb (normalize (Card.name c)) q) (_cards self) with
  | Some c => Some c
  | None =>
  match first_card (fun c => contains q (normalize (Card.name c))) (_cards self) with
  | Some c => Some c
  | None => None
  end end end.

(** [top_cards(n)]: the slice bound [max(1, n)] is positive, so the slice is
    a prefix. *)
Definition top_cards (self : repo) (n : Z) : list Card.t :=
  firstn (Z.to_nat (Z.max 1 n)) (sorted_desc Card.weight (_cards self)).

(** ** The chunking loop of [lootrate] *)

Record chunker : Type := mk_chunker
  { field_chunks : list (list string); current : list string; current_len : Z }.

Definition str_len (s : string) : Z := Z.of_nat (String.length s).

(** One turn of [for line in all_lines]. *)
Definition chunk_step (st : chunker) (line : string) : chunker :=
  let line_len := str_len line + 1 in
  if negb (is_nil (current st)) && (current_len st + line_len >? 1024)
  then mk_chunker (field_chunks st ++ [current st]) [line] line_len
  else mk_chunker (field_chunks st) (current st ++ [line]) (current_len st + line_len).

Definition lootrate_chunks (all_lines : list string) : list (list string) :=
  let st := fold_left chunk_step all_lines (mk_chunker [] [] 0) in
  if negb (is_nil (current st)) then field_chunks st ++ [current st]
  else field_chunks st.

Definition newline : string := String (ascii_of_nat 10) EmptyString.

(** ["\n".join(chunk)], the value of one embed field. *)
Definition join_lines (chunk : list string) : string := String.concat newline chunk.

(** ** Vocabulary of the specification *)

(** The normalisation as the specification words it: collapse the whitespace
    runs, trim, lowercase. *)
Definition normalize_spec (s : string) : string := lower (strip (re_sub_ws s)).

(** [q] is a substring of [s]. *)
Definition occurs_in (q s : string) : Prop :=
  exists pre post, s = (pre ++ q ++ post)%string.

(** [c] is the first card of [cs], in list order, that satisfies [P]. *)
Definition first_such (P : Card.t -> Prop) (cs : list Card.t) (c : Card.t) : Prop :=
  exists before after,
    cs = before ++ c :: after /\ P c /\ forall x, In x before -> ~ P x.

Definition none_such (P : Card.t -> Prop) (cs : list Card.t) : Prop :=
  forall x, In x cs -> ~ P x.

(** [out] is [l] sorted by [key], highest first, items of equal key in the
    order they have in [l]. *)
Definition stable_desc_sort_of {A : Type} (key : A -> Z) (l out : list A) : Prop :=
  Permutation l out /\
  StronglySorted (fun a b => key b <= key a) out /\
  forall w, filter (fun a => key a =? w) out = filter (fun a => key a =? w) l.

(** The tier a card falls in: the first one of the repository's list whose
    threshold the card's weight reaches, if any. *)
Definition tier_of (self : repo) (card : Card.t) : option Tier.t :=
  find (fun t => Tier.min_weight t <=? Card.weight card) (_tiers self).

(** The tiers file is absent, holds an empty list, or holds a document that
    is not a list. *)
Definition no_tiers_given (f : file) : bool :=
  match f with
  | Absent => true
  | Malformed => false
  | Document (JList []) => true
  | Document (JList (_ :: _)) => false
  | Document _ => true
  end.

(** The local [weights] of [_tiers_from_cards]. *)
Definition synthesized_weights (cs : list Card.t) : list Z :=
  sorted_desc (fun w => w) (positive_weights cs).

(** The tier made for weight [w] when tiers come from the cards. *)
Definition weight_tier (w : Z) : Tier.t := Tier.mk ("Poids >= " ++ str_of_int w) w.

(** [q] is [k] up to case and whitespace padding: letters may change case,
    whitespace may be added in front and behind, and a whitespace character
    inside may be replaced by another one or followed by one more. *)
Inductive padded : string -> string -> Prop :=
| padded_case k q : lower k = lower q -> padded k q
| padded_lead c k : is_space c = true -> padded k (String c k)
| padded_trail c k : is_space c = true -> padded k (k ++ String c EmptyString)
| padded_swap c c' u v :
    is_space c = true -> is_space c' = true ->
    padded (u ++ String c v) (u ++ String c' v)
| padded_widen c c' u v :
    is_space c = true -> is_space c' = true ->
    padded (u ++ String c v) (u ++ String c (String c' v))
| padded_trans k q r : padded k q -> padded q r -> padded k r.

(** Sum of [probability] over the loaded cards. *)
Definition sum_probabilities (self : repo) : Q :=
  fold_right (fun c acc => (probability self c + acc)%Q) 0%Q (_cards self).

(** Sum of the percentages of a summary. *)
Definition sum_pct (d : list (string * (Z * Q))) : Q :=
  fold_right (fun item acc => (snd (snd item) + acc)%Q) 0%Q d.

(** One report line of [lootrate], [f"**{c.name}** : {p:.3f}%"], given the
    three-decimal rendering of the percentage. *)
Definition report_line (name pct : string) : string :=
  "**" ++ name ++ "** : " ++ pct ++ "%".

(** The scenario of the specification: two cards, no tiers given. *)
Definition alpha_doc : json :=
  JDict [("key", JStr "a"); ("name", JStr "Alpha"); ("weight", JInt 70)].
Definition beta_doc : json :=
  JDict [("key", JStr "b"); ("name", JStr "Beta"); ("weight", JInt 30)].
Definition scenario_files : files :=
  mk_files (Document (JList [alpha_doc; beta_doc])) (Document (JList [])).
Definition Alpha : Card.t := Card.mk "a" "Alpha" "" "" 70.
Definition Beta : Card.t := Card.mk "b" "Beta" "" "" 30.
Definition scenario_repo : repo :=
  mk_repo [Alpha; Beta] [Tier.mk "Poids >= 70" 70; Tier.mk "Poids >= 30" 30].

(** A cards file holding Alpha alone, next to a tiers file that is not JSON. *)
Definition broken_tiers_files : files :=
  mk_files (Document (JList [alpha_doc])) Malformed.

(** A cards file whose only card has no ["key"] field. *)
Definition keyless_files : files :=
  mk_files (Document (JList [JDict [("name", JStr "Gamma"); ("weight", JInt 5)]])) Absent.
Definition Gamma : Card.t := Card.mk "" "Gamma" "" "" 5.
Definition keyless_repo : repo := mk_repo [Gamma] [Tier.mk "Poids >= 5" 5].

(** Sum of the weights a dict of per-tier sums holds, and the sum
    [total_weight] computes, written as a right fold. *)
Definition dict_sum (d : list (string * Z)) : Z :=
  fold_right (fun kv acc => snd kv + acc) 0 d.
Definition weight_sum (cs : list Card.t) : Z :=
  fold_right (fun c acc => Z.max 0 (Card.weight c) + acc) 0 cs.

(** A cards file with a negative weight, and the repository it loads as. *)
Definition negative_files : files :=
  mk_files
    (Document (JList [JDict [("key", JStr "a"); ("name", JStr "Alpha"); ("weight", JInt 10)];
                      JDict [("key", JStr "b"); ("name", JStr "Beta"); ("weight", JInt (-5))]]))
    Absent.
Definition negative_repo : repo :=
  mk_repo [Card.mk "a" "Alpha" "" "" 10; Card.mk "b" "Beta" "" "" (-5)]
          [Tier.mk "Poids >= 10" 10].

(** What one line adds to [current_len], and the total for a chunk. *)
Definition line_cost (line : string) : Z := str_len line + 1.
Definition chunk_cost (chunk : list string) : Z :=
  fold_right (fun line acc => line_cost line + acc) 0 chunk.

(** A chunk the loop may hold or emit: not empty, and within the limit
    unless it is a single line. *)
Definition chunk_ok (chunk : list string) : Prop :=
  chunk <> [] /\ (chunk_cost chunk <= 1024 \/ exists line, chunk = [line]).

(** What the loop of [lootrate] maintains once the lines [done] are read. *)
Record chunker_inv (done : list string) (st : chunker) : Prop :=
  { inv_lines : List.concat (field_chunks st) ++ current st = done;
    inv_len : current_len st = chunk_cost (current st);
    inv_emitted : Forall chunk_ok (field_chunks st);
    inv_current : current st = [] \/ chunk_ok (current st) }.

(** The report line of a card whose name is 1020 letters long and whose
    probability is 1. *)
Definition long_name : string := string_of_list_ascii (repeat "a"%char 1020).
Definition long_line : string := report_line long_name "100.000".

(** Builtins for closed examples whose documents hold strings and integers
    only: neither conversion is consulted on them. *)
Definition str_unused (_ : json) : string := "".
Definition int_unused (_ : json) : option Z := None.

(** ** Further vocabulary *)

(** Every character of [s] is whitespace. *)
Definition blank (s : string) : Prop :=
  Forall (fun c => is_space c = true) (list_ascii_of_string s).

(** The tier labels of the loaded cards, in card order. *)
Definition labels (self : repo) : list string :=
  map (tier_for_card self) (_cards self).

(** The clamped weight of the loaded cards labelled [k]. *)
Definition label_weight (self : repo) (k : string) : Z :=
  weight_sum (filter (fun c => String.eqb (tier_for_card self c) k) (_cards self)).

(** Keeping the first occurrence of each string: [seen] grows to the right. *)
Definition dedup_step (seen : list string) (k : string) : list string :=
  if existsb (String.eqb k) seen then seen else seen ++ [k].
Definition dedup_onto (seen l : list string) : list string :=
  fold_left dedup_step l seen.
Definition dedup_first (l : list string) : list string := dedup_onto [] l.

(** Between two consecutive chunks the first could not take the line the
    second starts with. *)
Definition greedy (chunks : list (list string)) : Prop :=
  forall i A B,
    nth_error chunks i = Some A -> nth_error chunks (S i) = Some B ->
    exists line rest, B = line :: rest /\ chunk_cost A + line_cost line > 1024.

(** The chunks read so far, the open one included. *)
Definition chunks_so_far (st : chunker) : list (list string) :=
  if is_nil (current st) then field_chunks st else field_chunks st ++ [current st].

(** ** The [lootrate] command

    What the handler sends, without the wording of the messages: the report
    of a data error (with the exception), the refusal when the total weight
    is 0, or the embed with its fields (name, value) in order. *)
Inductive lootrate_reply : Type :=
| LootrateDataError (e : exn)
| LootrateZeroTotal
| LootrateEmbed (fields : list (string * string)).

(** [name = "Toutes les cartes" if i == 0 else "Toutes les cartes (suite)"] *)
Definition field_name (i : nat) : string :=
  if Nat.eqb i 0 then "Toutes les cartes" else "Toutes les cartes (suite)".

(** [for i, chunk in enumerate(field_chunks): embed.add_field(...)], counting
    from [i]. *)
Fixpoint add_fields (i : nat) (chunks : list (list string)) : list (string * string) :=
  match chunks with
  | [] => []
  | chunk :: rest => (field_name i, join_lines chunk) :: add_fields (S i) rest
  end.

Section Lootrate.

Variable py_str_other : json -> string.
Variable py_int_other : json -> option Z.

(** [f"{p:.3f}"], Python's rendering of a float with three decimals. *)
Variable fmt3 : Q -> string.

(** The local [all_lines]. *)
Definition lootrate_lines (self : repo) : list string :=
  map (fun c => report_line (Card.name c) (fmt3 (probability self c * 100)%Q))
      (_cards self).

Definition lootrate (fs : files) (self : repo) : lootrate_reply * repo :=
  match reload py_str_other py_int_other fs self with
  | (Raise e, self') => (LootrateDataError e, self')
  | (Ok _, self') =>
      if total_weight self' <=? 0 then (LootrateZeroTotal, self')
      else (LootrateEmbed (add_fields 0 (lootrate_chunks (lootrate_lines self'))), self')
  end.

End Lootrate.

(** ** The collection scan of the [verify] command

    The loop of [verify] over the assets the indexing service returned, on the
    decoded response [data]; granting the role is Discord's business and is
    not modelled. *)

Section Verify.

(** [bool(x)] for a float, given by its literal: false for a zero. *)
Variable float_truthy : string -> bool.

(** [bool(v)] *)
Definition truthy (v : json) : bool :=
  match v with
  | JNull => false
  | JBool b => b
  | JInt n => negb (n =? 0)
  | JFloat literal => float_truthy literal
  | JStr s => negb (is_empty s)
  | JList l => negb (is_nil l)
  | JDict d => negb (is_nil d)
  end.

(** [v or default] *)
Definition py_or (v default : json) : json := if truthy v then v else default.

(** [v.get(k, default)]: only a dict has [get]. *)
Definition py_get (v : json) (k : string) (default : json) : result json :=
  match v with
  | JDict m => Ok (dict_get m k default)
  | _ => Raise AttributeError
  end.

(** [v == text] for a string [text]. *)
Definition is_str (v : json) (text : string) : bool :=
  match v with JStr s => String.eqb s text | _ => false end.

(** [for g in grouping: if g.get("group_key") == "collection": ...; break],
    entered with [collection_name] falsy, so left with [""] when no entry is
    tagged. *)
Fixpoint grouping_collection (grouping : list json) : result json :=
  match grouping with
  | [] => Ok (JStr "")
  | g :: rest =>
      match py_get g "group_key" JNull with
      | Raise e => Raise e
      | Ok tag =>
          if is_str tag "collection" then
            match py_get g "group_value" JNull with
            | Raise e => Raise e
            | Ok value => Ok (py_or value (JStr ""))
            end
          else grouping_collection rest
      end
  end.

(** The value of [collection_name] for one asset, before it is normalised. *)
Definition item_collection (it : json) : result json :=
  match py_get it "content" (JDict []) with
  | Raise e => Raise e
  | Ok content =>
  match py_get (py_or content (JDict [])) "metadata" (JDict []) with
  | Raise e => Raise e
  | Ok metadata =>
  match py_get (py_or metadata (JDict [])) "collection" JNull with
  | Raise e => Raise e
  | Ok collection =>
      let collection_name := py_or collection (JStr "") in
      if negb (truthy collection_name) then
        match py_get it "grouping" (JList []) with
        | Raise e => Raise e
        | Ok grouping =>
            match py_iter (py_or grouping (JList [])) with
            | Raise e => Raise e
            | Ok entries => grouping_collection entries
            end
        end
      else Ok collection_name
  end end end.

(** [normalize(v)] on a decoded value: [(v or "")] is a string, or a truthy
    value without [strip]. *)
Definition normalize_value (v : json) : result string :=
  match py_or v (JStr "") with
  | JStr s => Ok (normalize s)
  | _ => Raise AttributeError
  end.

(** [normalize(collection_name)] for one asset. *)
Definition collection_text (it : json) : result string :=
  match item_collection it with
  | Raise e => Raise e
  | Ok name => normalize_value name
  end.

(** [for it in items: ...; if normalize(NAME) in normalize(collection_name):
    found = True; break], returning [found]. *)
Fixpoint scan_items (target : string) (items : list json) : result bool :=
  match items with
  | [] => Ok false
  | it :: rest =>
      match collection_text it with
      | Raise e => Raise e
      | Ok text =>
          if contains (normalize target) text then Ok true
          else scan_items target rest
      end
  end.

(** [items = (data.get("result", {}) or {}).get("items", []) or []], then the
    loop. *)
Definition found (target : string) (data : json) : result bool :=
  match py_get data "result" (JDict []) with
  | Raise e => Raise e
  | Ok res =>
  match py_get (py_or res (JDict [])) "items" (JList []) with
  | Raise e => Raise e
  | Ok items =>
  match py_iter (py_or items (JList [])) with
  | Raise e => Raise e
  | Ok its => scan_items target its
  end end end.

End Verify.

(** An asset as the indexing service describes it, with a collection name in
    its metadata or in its grouping. *)
Definition asset_with_metadata (collection : string) : json :=
  JDict [("content", JDict [("metadata", JDict [("collection", JStr collection)])])].
Definition asset_with_grouping (collection : string) : json :=
  JDict [("grouping", JList [JDict [("group_key", JStr "collection");
                                    ("group_value", JStr collection)]])].
Definition response_of (items : list json) : json :=
  JDict [("result", JDict [("items", JList items)])].

(** Truth value of floats for closed examples whose documents hold none: it
    is never consulted on them. *)
Definition no_float (_ : string) : bool := true.

(** * Proofs *)

(** ** Text *)

Section TextFacts.

Lemma is_space_lower c : is_space (lower_char c) = is_space c.
Proof. destruct c as [[] [] [] [] [] [] [] []]; reflexivity. Qed.

Lemma is_empty_lower s : is_empty (lower s) = is_empty s.
Proof. destruct s; reflexivity. Qed.

Lemma is_empty_true s : is_empty s = true -> s = EmptyString.
Proof. destruct s; [reflexivity | discriminate]. Qed.

Lemma lower_app u v : lower (u ++ v) = (lower u ++ lower v)%string.
Proof. induction u as [|c u IH]; simpl; [reflexivity | now rewrite IH]. Qed.

Lemma lstrip_lower s : lstrip (lower s) = lower (lstrip s).
Proof.
  induction s as [|c s IH]; simpl; [reflexivity|].
  rewrite is_space_lower. destruct (is_space c); [exact IH | reflexivity].
Qed.

Lemma rstrip_lower s : rstrip (lower s) = lower (rstrip s).
Proof.
  induction s as [|c s IH]; simpl; [reflexivity|].
  rewrite is_space_lower, IH, is_empty_lower.
  destruct (is_space c && is_empty (rstrip s)); reflexivity.
Qed.

Lemma strip_lower s : strip (lower s) = lower (strip s).
Proof. unfold strip. now rewrite lstrip_lower, rstrip_lower. Qed.

Lemma sub_ws_lower b s : sub_ws b (lower s) = lower (sub_ws b s).
Proof.
  revert b; induction s as [|c s IH]; intros b; simpl; [reflexivity|].
  rewrite is_space_lower.
  destruct (is_space c); [destruct b|]; simpl; now rewrite IH.
Qed.

Lemma lstrip_sub_ws b s : lstrip (sub_ws b s) = sub_ws false (lstrip s).
Proof.
  revert b; induction s as [|c s IH]; intros b; simpl; [reflexivity|].
  destruct (is_space c) eqn:Hc.
  - destruct b; simpl; apply IH.
  - simpl. now rewrite Hc.
Qed.

Lemma sub_ws_empty b s : sub_ws b s = EmptyString -> rstrip s = EmptyString.
Proof.
  revert b; induction s as [|c s IH]; intros b; simpl; [reflexivity|].
  destruct (is_space c); [|discriminate].
  destruct b; [|discriminate].
  intros H. now rewrite (IH true H).
Qed.

Lemma rstrip_idem s : rstrip (rstrip s) = rstrip s.
Proof.
  induction s as [|c s IH]; simpl; [reflexivity|].
  destruct (is_space c && is_empty (rstrip s)) eqn:E; [reflexivity|].
  simpl. now rewrite IH, E.
Qed.

Lemma rstrip_sub_ws b s : rstrip (sub_ws b s) = sub_ws b (rstrip s).
Proof.
  revert b; induction s as [|c s IH]; intros b; simpl; [reflexivity|].
  destruct (is_space c) eqn:Hc; simpl.
  - destruct (is_empty (rstrip s)) eqn:He.
    + apply is_empty_true in He.
      destruct b; simpl; rewrite IH, He; reflexivity.
    + simpl. rewrite Hc.
      destruct b; simpl; rewrite IH; [reflexivity|].
      destruct (is_empty (sub_ws true (rstrip s))) eqn:He'; [|reflexivity].
      apply is_empty_true, sub_ws_empty in He'.
      rewrite rstrip_idem in He'. now rewrite He' in He.
  - now rewrite Hc, IH.
Qed.

Lemma strip_sub_ws s : strip (re_sub_ws s) = re_sub_ws (strip s).
Proof. unfold strip, re_sub_ws. now rewrite lstrip_sub_ws, rstrip_sub_ws. Qed.

(** The source trims and lowercases before it collapses the runs; the
    result is the one the specification describes. *)
Lemma normalize_spec_eq s : normalize s = normalize_spec s.
Proof.
  unfold normalize, normalize_spec.
  rewrite strip_sub_ws. unfold re_sub_ws. now rewrite sub_ws_lower.
Qed.

End TextFacts.

Section Padding.

Lemma normalize_lead c k : is_space c = true -> normalize (String c k) = normalize k.
Proof. intros H. unfold normalize, strip. simpl. now rewrite H. Qed.

Lemma rstrip_trail c s :
  is_space c = true -> rstrip (s ++ String c EmptyString) = rstrip s.
Proof.
  intros H. induction s as [|a s IH]; simpl.
  - now rewrite H.
  - now rewrite IH.
Qed.

Lemma normalize_trail c k :
  is_space c = true -> normalize (k ++ String c EmptyString) = normalize k.
Proof.
  intros H. unfold normalize, strip. do 2 f_equal.
  induction k as [|a k IH]; simpl.
  - now rewrite H.
  - destruct (is_space a); [exact IH|].
    apply (rstrip_trail c (String a k) H).
Qed.

Lemma normalize_case k q : lower k = lower q -> normalize k = normalize q.
Proof.
  intros H. unfold normalize. now rewrite <- !strip_lower, H.
Qed.

Lemma normalize_by_runs k q : re_sub_ws k = re_sub_ws q -> normalize k = normalize q.
Proof.
  intros H. rewrite !normalize_spec_eq. unfold normalize_spec. now rewrite H.
Qed.

Lemma sub_ws_swap b c c' u v :
  is_space c = true -> is_space c' = true ->
  sub_ws b (u ++ String c v) = sub_ws b (u ++ String c' v).
Proof.
  intros Hc Hc'. revert b; induction u as [|a u IH]; intros b; simpl.
  - now rewrite Hc, Hc'.
  - destruct (is_space a); [destruct b|]; now rewrite IH.
Qed.

Lemma sub_ws_widen b c c' u v :
  is_space c = true -> is_space c' = true ->
  sub_ws b (u ++ String c v) = sub_ws b (u ++ String c (String c' v)).
Proof.
  intros Hc Hc'. revert b; induction u as [|a u IH]; intros b; simpl.
  - now rewrite Hc, Hc'.
  - destruct (is_space a); [destruct b|]; now rewrite IH.
Qed.

(** A padded variant of a string normalises to the same text. *)
Lemma padded_normalize k q : padded k q -> normalize q = normalize k.
Proof.
  induction 1 as [k q H|c k H|c k H|c c' u v H H'|c c' u v H H'|k q r _ IH1 _ IH2].
  - symmetry. now apply normalize_case.
  - now apply normalize_lead.
  - now apply normalize_trail.
  - apply normalize_by_runs. symmetry. now apply sub_ws_swap.
  - apply normalize_by_runs. symmetry. now apply sub_ws_widen.
  - now rewrite IH2.
Qed.

End Padding.

Section Search.

Lemma prefix_spec p s :
  String.prefix p s = true <-> exists post, s = (p ++ post)%string.
Proof.
  revert s; induction p as [|a p IH]; intros s; simpl.
  - destruct s; split; eauto.
  - destruct s as [|b s].
    + split; [discriminate | intros [post H]; discriminate].
    + simpl. destruct (ascii_dec a b) as [->|Hab].
      * rewrite IH. split; intros [post H]; exists post.
        -- now rewrite H.
        -- now injection H.
      * split; [discriminate|]. intros [post H]. injection H as E _. congruence.
Qed.

Lemma contains_spec q s : contains q s = true <-> occurs_in q s.
Proof.
  unfold occurs_in. induction s as [|a s IH]; cbn [contains].
  - rewrite orb_false_r, prefix_spec. split.
    + intros [post H]. exists EmptyString, post. exact H.
    + intros [pre [post H]]. destruct pre; [now exists post | discriminate].
  - rewrite orb_true_iff, prefix_spec, IH. split.
    + intros [[post H]|[pre [post H]]].
      * exists EmptyString, post. exact H.
      * exists (String a pre), post. simpl. now rewrite H.
    + intros [pre [post H]]. destruct pre as [|b pre]; simpl in H.
      * left. now exists post.
      * right. injection H as _ H. now exists pre, post.
Qed.

Variable test : Card.t -> bool.
Variable P : Card.t -> Prop.
Hypothesis test_P : forall c, test c = true <-> P c.

Lemma first_card_none cs : none_such P cs -> first_card test cs = None.
Proof.
  induction cs as [|c cs IH]; intros H; simpl; [reflexivity|].
  destruct (test c) eqn:E.
  - apply test_P in E. exfalso. apply (H c); [now left | exact E].
  - apply IH. intros x Hx. apply H. now right.
Qed.

Lemma first_card_some cs c : first_such P cs c -> first_card test cs = Some c.
Proof.
  intros (before & after & -> & Hc & Hb).
  induction before as [|b before IH]; simpl.
  - apply test_P in Hc. now rewrite Hc.
  - destruct (test b) eqn:E.
    + apply test_P in E. exfalso. apply (Hb b); [now left | exact E].
    + apply IH. intros x Hx. apply Hb. now right.
Qed.

End Search.

(** ** [sorted(..., reverse=True)] *)

Section Sorting.

Context {A : Type} (key : A -> Z).

Local Abbreviation desc := (StronglySorted (fun a b => key b <= key a)).
Local Abbreviation keyed w := (fun a => key a =? w).

Lemma insert_desc_perm x l : Permutation (x :: l) (insert_desc key x l).
Proof.
  induction l as [|y l IH]; simpl; [reflexivity|].
  destruct (key x <? key y); [|reflexivity].
  rewrite perm_swap. now apply perm_skip.
Qed.

Lemma sorted_desc_perm l : Permutation l (sorted_desc key l).
Proof.
  induction l as [|x l IH]; simpl; [reflexivity|].
  rewrite <- insert_desc_perm. now apply perm_skip.
Qed.

Lemma insert_desc_sorted x l : desc l -> desc (insert_desc key x l).
Proof.
  induction l as [|y l IH]; intros H; simpl.
  - repeat constructor.
  - inversion H as [|? ? Hl Hy]; subst.
    destruct (key x <? key y) eqn:E.
    + constructor; [now apply IH|].
      apply (Permutation_Forall (insert_desc_perm x l)).
      constructor; [|exact Hy]. apply Z.ltb_lt in E. lia.
    + apply Z.ltb_ge in E. constructor; [exact H|].
      constructor; [exact E|].
      eapply Forall_impl; [|exact Hy]. cbn. intros; lia.
Qed.

Lemma sorted_desc_sorted l : desc (sorted_desc key l).
Proof.
  induction l as [|x l IH]; simpl; [constructor | now apply insert_desc_sorted].
Qed.

Lemma insert_desc_filter w x l :
  filter (keyed w) (insert_desc key x l) = filter (keyed w) (x :: l).
Proof.
  induction l as [|y l IH]; [reflexivity|].
  cbn [insert_desc]. destruct (key x <? key y) eqn:E; [|reflexivity].
  apply Z.ltb_lt in E. cbn [filter] in *. rewrite IH.
  destruct (key y =? w) eqn:Ey, (key x =? w) eqn:Ex; try reflexivity.
  apply Z.eqb_eq in Ey, Ex. lia.
Qed.

Lemma sorted_desc_filter w l :
  filter (keyed w) (sorted_desc key l) = filter (keyed w) l.
Proof.
  induction l as [|x l IH]; [reflexivity|].
  cbn [sorted_desc fold_right]. rewrite insert_desc_filter.
  cbn [filter]. fold (sorted_desc key l). now rewrite IH.
Qed.

(** The model of [sorted] is a stable descending sort... *)
Lemma sorted_desc_spec l : stable_desc_sort_of key l (sorted_desc key l).
Proof.
  repeat split;
    [apply sorted_desc_perm | apply sorted_desc_sorted | intros; apply sorted_desc_filter].
Qed.

Lemma desc_filter_unique l1 l2 :
  desc l1 -> desc l2 ->
  (forall w, filter (keyed w) l1 = filter (keyed w) l2) -> l1 = l2.
Proof.
  revert l2; induction l1 as [|a r1 IH]; intros [|b r2] H1 H2 Hf.
  - reflexivity.
  - specialize (Hf (key b)). cbn in Hf. rewrite Z.eqb_refl in Hf. discriminate.
  - specialize (Hf (key a)). cbn in Hf. rewrite Z.eqb_refl in Hf. discriminate.
  - inversion H1 as [|? ? H1r H1a]; inversion H2 as [|? ? H2r H2b]; subst.
    assert (Hab : key a <= key b).
    { assert (Hin : In a (filter (keyed (key a)) (b :: r2))).
      { rewrite <- Hf. cbn. rewrite Z.eqb_refl. now left. }
      apply filter_In in Hin. destruct Hin as [[->|Hin] _]; [lia|].
      rewrite Forall_forall in H2b. now apply H2b. }
    assert (Hba : key b <= key a).
    { assert (Hin : In b (filter (keyed (key b)) (a :: r1))).
      { rewrite Hf. cbn. rewrite Z.eqb_refl. now left. }
      apply filter_In in Hin. destruct Hin as [[->|Hin] _]; [lia|].
      rewrite Forall_forall in H1a. now apply H1a. }
    assert (E : key b = key a) by lia.
    pose proof (Hf (key a)) as Hh. cbn in Hh.
    rewrite E, Z.eqb_refl in Hh. injection Hh as -> Hh.
    f_equal. apply IH; [assumption..|].
    intros w. specialize (Hf w). cbn in Hf.
    destruct (key b =? w); [now injection Hf | exact Hf].
Qed.

(** ... and there is only one: any stable sort returns the same list. *)
Lemma stable_desc_sort_unique l out1 out2 :
  stable_desc_sort_of key l out1 -> stable_desc_sort_of key l out2 -> out1 = out2.
Proof.
  intros (_ & H1 & F1) (_ & H2 & F2).
  apply desc_filter_unique; [assumption..|]. intros w. now rewrite F1, F2.
Qed.

Lemma sorted_desc_id l : desc l -> sorted_desc key l = l.
Proof.
  induction 1 as [|x l Hl IH Hx]; [reflexivity|].
  cbn [sorted_desc fold_right]. fold (sorted_desc key l). rewrite IH.
  destruct l as [|y l]; [reflexivity|]. cbn.
  inversion Hx; subst. now replace (key x <? key y) with false by (symmetry; apply Z.ltb_ge; lia).
Qed.

End Sorting.

(** A Python [set] is enumerated in an order the language does not fix; on
    distinct integers [sorted] returns the same list whatever that order. *)
Lemma filter_eq_nodup (l : list Z) (w : Z) :
  NoDup l ->
  filter (fun a => a =? w) l = if in_dec Z.eq_dec w l then [w] else [].
Proof.
  induction 1 as [|x l Hx Hl IH]; [reflexivity|]. cbn [filter].
  destruct (Z.eqb_spec x w) as [->|Hne].
  - rewrite IH. destruct (in_dec Z.eq_dec w l) as [Hin|_]; [contradiction|].
    destruct (in_dec Z.eq_dec w (w :: l)) as [_|Hn]; [reflexivity|].
    destruct Hn. now left.
  - rewrite IH. destruct (in_dec Z.eq_dec w l) as [Hin|Hin],
      (in_dec Z.eq_dec w (x :: l)) as [Hin'|Hin']; try reflexivity.
    + destruct Hin'. now right.
    + destruct Hin' as [E|Hin']; [congruence | contradiction].
Qed.

Lemma sorted_desc_set_order (l l' : list Z) :
  NoDup l -> Permutation l l' ->
  sorted_desc (fun w => w) l = sorted_desc (fun w => w) l'.
Proof.
  intros Hn Hp.
  apply (desc_filter_unique (fun w => w)); try apply (sorted_desc_sorted (fun w => w)).
  intros w. rewrite !(sorted_desc_filter (fun w => w)).
  rewrite (filter_eq_nodup l w Hn),
    (filter_eq_nodup l' w (Permutation_NoDup Hp Hn)).
  destruct (in_dec Z.eq_dec w l) as [H|H], (in_dec Z.eq_dec w l') as [H'|H'];
    try reflexivity.
  - destruct H'. now apply (Permutation_in _ Hp).
  - destruct H. now apply (Permutation_in _ (Permutation_sym Hp)).
Qed.

(** ** Tiers *)

Section TierFacts.

Local Abbreviation desc_tiers :=
  (StronglySorted (fun a b => Tier.min_weight b <= Tier.min_weight a)).

Lemma tier_scan_find w ts :
  tier_scan w ts =
  match find (fun t => Tier.min_weight t <=? w) ts with
  | Some t => Tier.name t
  | None => "Inconnu"
  end.
Proof.
  induction ts as [|t ts IH]; cbn; [reflexivity|].
  rewrite Z.geb_leb. destruct (Tier.min_weight t <=? w); [reflexivity | exact IH].
Qed.

Lemma tier_for_card_of self c :
  tier_for_card self c =
  match tier_of self c with Some t => Tier.name t | None => "Inconnu" end.
Proof. apply tier_scan_find. Qed.

(** On a list sorted highest threshold first, a heavier card meets its tier
    no later than a lighter one. *)
Lemma find_tier_mono ts w1 w2 tb :
  desc_tiers ts -> w2 <= w1 ->
  find (fun t => Tier.min_weight t <=? w2) ts = Some tb ->
  exists ta, find (fun t => Tier.min_weight t <=? w1) ts = Some ta /\
             Tier.min_weight tb <= Tier.min_weight ta.
Proof.
  intros Hs Hw. induction Hs as [|t ts Hs IH Ht]; cbn; [discriminate|].
  destruct (Tier.min_weight t <=? w2) eqn:E2.
  - intros [= ->]. apply Z.leb_le in E2.
    replace (Tier.min_weight tb <=? w1) with true by (symmetry; apply Z.leb_le; lia).
    exists tb. split; [reflexivity | lia].
  - intros Hb. destruct (Tier.min_weight t <=? w1) eqn:E1.
    + exists t. split; [reflexivity|].
      apply find_some in Hb. destruct Hb as [Hb _].
      rewrite Forall_forall in Ht. now apply Ht.
    + now apply IH.
Qed.

Lemma desc_strict (l : list Z) :
  StronglySorted (fun a b => b <= a) l -> NoDup l ->
  StronglySorted (fun a b => b < a) l.
Proof.
  induction 1 as [|x l Hl IH Hx]; intros Hn; [constructor|].
  inversion Hn as [|? ? Hnx Hnl]; subst. constructor; [now apply IH|].
  rewrite Forall_forall in *. intros y Hy. specialize (Hx y Hy).
  assert (y <> x) by (intros ->; contradiction). lia.
Qed.

Lemma positive_weights_In w cs :
  In w (positive_weights cs) <-> exists c, In c cs /\ Card.weight c = w /\ w > 0.
Proof.
  unfold positive_weights. rewrite nodup_In, in_map_iff. split.
  - intros (c & <- & Hc). apply filter_In in Hc. destruct Hc as [Hc Hw].
    exists c. repeat split; [exact Hc | apply Z.gtb_gt in Hw; lia].
  - intros (c & Hc & <- & Hw). exists c. split; [reflexivity|].
    apply filter_In. split; [exact Hc | apply Z.gtb_gt; lia].
Qed.

Lemma synthesized_weights_strict cs :
  StronglySorted (fun a b => b < a) (synthesized_weights cs).
Proof.
  apply desc_strict.
  - apply (sorted_desc_sorted (fun w => w)).
  - eapply Permutation_NoDup; [apply sorted_desc_perm|].
    apply NoDup_nodup.
Qed.

Lemma synthesized_weights_In w cs :
  In w (synthesized_weights cs) <-> exists c, In c cs /\ Card.weight c = w /\ w > 0.
Proof.
  rewrite <- positive_weights_In. split; apply Permutation_in;
    [symmetry|]; apply sorted_desc_perm.
Qed.

Lemma tiers_from_cards_eq self :
  _tiers_from_cards self = map weight_tier (synthesized_weights (_cards self)).
Proof. reflexivity. Qed.

Lemma weight_tiers_strict ws :
  StronglySorted (fun a b => b < a) ws ->
  StronglySorted (fun a b => Tier.min_weight b < Tier.min_weight a) (map weight_tier ws).
Proof.
  induction 1 as [|x l Hl IH Hx]; cbn; constructor; [exact IH|].
  rewrite Forall_map. exact Hx.
Qed.

Lemma strict_desc_tiers ts :
  StronglySorted (fun a b => Tier.min_weight b < Tier.min_weight a) ts -> desc_tiers ts.
Proof.
  induction 1 as [|x l Hl IH Hx]; constructor; [exact IH|].
  eapply Forall_impl; [|exact Hx]. cbn. intros; lia.
Qed.

(** Sorting the synthesized tiers again, as [reload] does, changes nothing. *)
Lemma sorted_tiers_from_cards self :
  sorted_desc Tier.min_weight (_tiers_from_cards self) =
  map weight_tier (synthesized_weights (_cards self)).
Proof.
  rewrite tiers_from_cards_eq. apply sorted_desc_id, strict_desc_tiers,
    weight_tiers_strict, synthesized_weights_strict.
Qed.

Lemma tier_scan_own ws w :
  StronglySorted (fun a b => b < a) ws -> In w ws ->
  tier_scan w (map weight_tier ws) = Tier.name (weight_tier w).
Proof.
  induction 1 as [|x l Hl IH Hx]; intros Hin; [contradiction|].
  cbn [map tier_scan]. cbn [weight_tier Tier.min_weight].
  destruct (w >=? x) eqn:E.
  - destruct Hin as [->|Hin]; [reflexivity|].
    rewrite Forall_forall in Hx. specialize (Hx w Hin).
    rewrite Z.geb_leb in E. apply Z.leb_le in E. lia.
  - destruct Hin as [->|Hin]; [|now apply IH].
    rewrite Z.geb_leb, Z.leb_gt in E. lia.
Qed.

Lemma tier_scan_below ws w :
  (forall x, In x ws -> w < x) -> tier_scan w (map weight_tier ws) = "Inconnu".
Proof.
  induction ws as [|x ws IH]; intros H; [reflexivity|].
  cbn [map tier_scan]. cbn [weight_tier Tier.min_weight].
  replace (w >=? x) with false.
  - apply IH. intros y Hy. apply H. now right.
  - symmetry. rewrite Z.geb_leb. apply Z.leb_gt. apply H. now left.
Qed.

End TierFacts.

(** ** [reload] *)

Section ReloadFacts.

Variable py_str_other : json -> string.
Variable py_int_other : json -> option Z.

Local Abbreviation reload' := (reload py_str_other py_int_other).
Local Abbreviation read_cards' := (read_cards py_str_other py_int_other).
Local Abbreviation read_tiers' := (read_tiers py_str_other py_int_other).
Local Abbreviation reachable' := (reachable py_str_other py_int_other).

(** [reload] run through: where it can stop and what [self] holds then. *)
Lemma reload_cases fs self :
  reload' fs self =
  match read_cards' fs with
  | Raise e => (Raise e, self)
  | Ok cards =>
      match read_tiers' fs with
      | Raise e => (Raise e, mk_repo cards (_tiers self))
      | Ok tiers =>
          (Ok tt,
           mk_repo cards
             (sorted_desc Tier.min_weight
                (if is_nil tiers
                 then _tiers_from_cards (mk_repo cards (_tiers self))
                 else tiers)))
      end
  end.
Proof.
  unfold reload, bind, lift, set_cards, set_tiers, read, ret.
  destruct (read_cards' fs) as [cards|e]; [|reflexivity].
  destruct (read_tiers' fs) as [tiers|e]; [|reflexivity].
  destruct (is_nil tiers); reflexivity.
Qed.

Lemma reload_ok fs self self' :
  reload' fs self = (Ok tt, self') ->
  exists cards given,
    read_cards' fs = Ok cards /\ read_tiers' fs = Ok given /\
    _cards self' = cards /\
    _tiers self' =
      sorted_desc Tier.min_weight
        (if is_nil given then _tiers_from_cards self' else given).
Proof.
  rewrite reload_cases.
  destruct (read_cards' fs) as [cards|e]; [|discriminate].
  destruct (read_tiers' fs) as [given|e]; [|discriminate].
  intros [= <-]. exists cards, given. repeat split.
Qed.

Lemma read_tiers_none fs :
  no_tiers_given (tiers_path fs) = true -> read_tiers' fs = Ok [].
Proof.
  unfold read_tiers, no_tiers_given.
  destruct (tiers_path fs) as [| |v]; cbn; [reflexivity | discriminate |].
  destruct v as [| | | | |[|x l]|]; first [reflexivity | discriminate].
Qed.

Lemma reload_synthesized fs self self' :
  reload' fs self = (Ok tt, self') ->
  no_tiers_given (tiers_path fs) = true ->
  _tiers self' = map weight_tier (synthesized_weights (_cards self')).
Proof.
  intros H Hn. apply reload_ok in H.
  destruct H as (cards & given & _ & Hg & _ & Ht).
  rewrite (read_tiers_none fs Hn) in Hg. injection Hg as <-.
  rewrite Ht. apply sorted_tiers_from_cards.
Qed.

(** Every state a program can hold has its tiers sorted, highest threshold
    first. *)
Lemma reachable_sorted self :
  reachable' self ->
  StronglySorted (fun a b => Tier.min_weight b <= Tier.min_weight a) (_tiers self).
Proof.
  induction 1 as [fs self Hnew|fs self r self' _ IH Hr].
  - unfold new in Hnew. rewrite reload_cases in Hnew.
    destruct (read_cards' fs); [|discriminate].
    destruct (read_tiers' fs); [|discriminate].
    injection Hnew as <-. apply sorted_desc_sorted.
  - rewrite reload_cases in Hr.
    destruct (read_cards' fs); [|injection Hr as _ <-; exact IH].
    destruct (read_tiers' fs); injection Hr as _ <-; [apply sorted_desc_sorted | exact IH].
Qed.

End ReloadFacts.

(** ** Claims on [reload] and the tiers *)

(** C2, as stated, fails: with a cards file that decodes and a tiers file that
    is malformed JSON, [reload] raises after it has already assigned the new
    card list. A repository holding the card Beta and the tier for weight 30
    ends up holding the card Alpha with the old tier. *)
Lemma reload_failure_keeps_new_cards :
  new str_unused int_unused (mk_files (Document (JList [beta_doc])) Absent)
    = Ok (mk_repo [Beta] [weight_tier 30]) /\
  reload str_unused int_unused broken_tiers_files (mk_repo [Beta] [weight_tier 30])
    = (Raise JSONDecodeError, mk_repo [Alpha] [weight_tier 30]) /\
  ~ (forall fs self e self',
        reload str_unused int_unused fs self = (Raise e, self') ->
        _cards self' = _cards self /\ _tiers self' = _tiers self).
Proof.
  split; [reflexivity|]. split; [reflexivity|].
  intros F.
  destruct (F broken_tiers_files (mk_repo [Beta] [weight_tier 30])
              JSONDecodeError (mk_repo [Alpha] [weight_tier 30]) eq_refl) as [H _].
  discriminate H.
Qed.

(** C2, amended: when [reload] fails, the tier list is the one from before the
    call; if the failure comes from the cards file (missing, malformed, or not
    convertible to cards) the card list is untouched too, and if it comes from
    the tiers file the card list is already the one read from the new cards
    file. *)
Theorem reload_failure_state
  (py_str_other : json -> string) (py_int_other : json -> option Z)
  (fs : files) (self : repo) (e : exn) (self' : repo) :
  reload py_str_other py_int_other fs self = (Raise e, self') ->
  _tiers self' = _tiers self /\
  match read_cards py_str_other py_int_other fs with
  | Raise e' => e' = e /\ self' = self
  | Ok cards =>
      read_tiers py_str_other py_int_other fs = Raise e /\ _cards self' = cards
  end.
Proof.
  rewrite reload_cases.
  destruct (read_cards py_str_other py_int_other fs) as [cards|e1].
  - destruct (read_tiers py_str_other py_int_other fs) as [tiers|e2]; [discriminate|].
    intros [= <- <-]. repeat split.
  - intros [= <- <-]. repeat split.
Qed.

Lemma reload_failure_state_witness :
  reload str_unused int_unused (mk_files Absent Absent) scenario_repo
    = (Raise FileNotFoundError, scenario_repo) /\
  _tiers scenario_repo = _tiers scenario_repo /\
  (FileNotFoundError = FileNotFoundError /\ scenario_repo = scenario_repo).
Proof.
  split; [reflexivity|].
  apply (reload_failure_state str_unused int_unused (mk_files Absent Absent)
           scenario_repo FileNotFoundError scenario_repo).
  reflexivity.
Defined.

(** C4: after a successful [reload] the repository's tier list is the loaded
    one (the file's, or the synthesized one when the file gave none) sorted by
    [min_weight] descending with ties in their original order, and
    [tier_for_card] returns the name of the first tier of that list whose
    [min_weight] is at most the card's weight, or "Inconnu" when there is
    none. *)
Theorem tier_for_card_first_in_sorted
  (py_str_other : json -> string) (py_int_other : json -> option Z)
  (fs : files) (self self' : repo) :
  reload py_str_other py_int_other fs self = (Ok tt, self') ->
  exists given,
    read_tiers py_str_other py_int_other fs = Ok given /\
    stable_desc_sort_of Tier.min_weight
      (if is_nil given then _tiers_from_cards self' else given) (_tiers self') /\
    forall c,
      tier_for_card self' c =
      match find (fun t => Tier.min_weight t <=? Card.weight c) (_tiers self') with
      | Some t => Tier.name t
      | None => "Inconnu"
      end.
Proof.
  intros H. apply reload_ok in H. destruct H as (cards & given & _ & Hg & _ & Ht).
  exists given. split; [exact Hg|]. split.
  - rewrite Ht. apply sorted_desc_spec.
  - intros c. apply tier_scan_find.
Qed.

Lemma tier_for_card_first_in_sorted_witness :
  reload str_unused int_unused scenario_files (mk_repo [] []) = (Ok tt, scenario_repo) /\
  exists given,
    read_tiers str_unused int_unused scenario_files = Ok given /\
    stable_desc_sort_of Tier.min_weight
      (if is_nil given then _tiers_from_cards scenario_repo else given)
      (_tiers scenario_repo) /\
    forall c,
      tier_for_card scenario_repo c =
      match find (fun t => Tier.min_weight t <=? Card.weight c) (_tiers scenario_repo) with
      | Some t => Tier.name t
      | None => "Inconnu"
      end.
Proof.
  split; [reflexivity|].
  apply (tier_for_card_first_in_sorted str_unused int_unused scenario_files
           (mk_repo [] []) scenario_repo).
  reflexivity.
Defined.

(** C8: in every state a program can hold, for cards [a] and [b] with
    [a.weight >= b.weight], if [b] falls in a tier then so does [a], in one
    whose threshold is at least as high; hence [a] is without a tier only if
    [b] is; [tier_for_card] returns that tier's name, or "Inconnu". *)
Theorem tier_for_card_monotonic
  (py_str_other : json -> string) (py_int_other : json -> option Z)
  (self : repo) (a b : Card.t) :
  reachable py_str_other py_int_other self ->
  Card.weight b <= Card.weight a ->
  (forall tb, tier_of self b = Some tb ->
     exists ta, tier_of self a = Some ta /\ Tier.min_weight tb <= Tier.min_weight ta) /\
  (tier_of self a = None -> tier_of self b = None) /\
  (forall x, tier_for_card self x =
             match tier_of self x with Some t => Tier.name t | None => "Inconnu" end).
Proof.
  intros Hr Hw. apply reachable_sorted in Hr.
  assert (Hm : forall tb, tier_of self b = Some tb ->
     exists ta, tier_of self a = Some ta /\ Tier.min_weight tb <= Tier.min_weight ta).
  { intros tb Hb. exact (find_tier_mono _ _ _ tb Hr Hw Hb). }
  split; [exact Hm|]. split; [|intros x; apply tier_for_card_of].
  intros Ha. destruct (tier_of self b) as [tb|] eqn:Hb; [|reflexivity].
  destruct (Hm tb eq_refl) as (ta & Hta & _). congruence.
Qed.

Lemma tier_for_card_monotonic_witness :
  reachable str_unused int_unused scenario_repo /\
  Card.weight Beta <= Card.weight Alpha /\
  (forall tb, tier_of scenario_repo Beta = Some tb ->
     exists ta, tier_of scenario_repo Alpha = Some ta /\
                Tier.min_weight tb <= Tier.min_weight ta).
Proof.
  assert (Hr : reachable str_unused int_unused scenario_repo)
    by (apply (reachable_new _ _ scenario_files); reflexivity).
  assert (Hw : Card.weight Beta <= Card.weight Alpha) by (cbn; lia).
  split; [exact Hr|]. split; [exact Hw|].
  apply (tier_for_card_monotonic str_unused int_unused scenario_repo Alpha Beta Hr Hw).
Defined.

(** C6: when the cards file loads and the tiers file is absent, holds an
    empty list, or holds a document that is not a list, [reload] succeeds and
    leaves as tier list one tier "Poids >= w" with [min_weight = w] per
    distinct positive weight [w] of the loaded cards, by strictly decreasing
    [min_weight]. On the two cards Alpha (70) and Beta (30) the tiers are
    "Poids >= 70" and "Poids >= 30", the probabilities 7/10 and 3/10, and
    Alpha's tier is "Poids >= 70". *)
Theorem tiers_synthesized_from_cards :
  (forall (py_str_other : json -> string) (py_int_other : json -> option Z)
          (fs : files) (self : repo) (cards : list Card.t),
      read_cards py_str_other py_int_other fs = Ok cards ->
      no_tiers_given (tiers_path fs) = true ->
      exists tiers,
        reload py_str_other py_int_other fs self = (Ok tt, mk_repo cards tiers) /\
        StronglySorted (fun a b => Tier.min_weight b < Tier.min_weight a) tiers /\
        forall t, In t tiers <->
                  exists c, In c cards /\ Card.weight c > 0 /\
                            t = Tier.mk ("Poids >= " ++ str_of_int (Card.weight c))
                                        (Card.weight c)) /\
  (forall (py_str_other : json -> string) (py_int_other : json -> option Z),
      new py_str_other py_int_other scenario_files = Ok scenario_repo /\
      new py_str_other py_int_other
          (mk_files (cards_path scenario_files) Absent) = Ok scenario_repo) /\
  _cards scenario_repo = [Alpha; Beta] /\
  _tiers scenario_repo = [Tier.mk "Poids >= 70" 70; Tier.mk "Poids >= 30" 30] /\
  (probability scenario_repo Alpha == 7 # 10)%Q /\
  (probability scenario_repo Beta == 3 # 10)%Q /\
  tier_for_card scenario_repo Alpha = "Poids >= 70".
Proof.
  split; [|repeat split].
  intros s i fs self cards Hc Hn.
  exists (map weight_tier (synthesized_weights cards)). split; [|split].
  - rewrite reload_cases, Hc, (read_tiers_none s i fs Hn). cbn [is_nil].
    now rewrite sorted_tiers_from_cards.
  - apply weight_tiers_strict, synthesized_weights_strict.
  - intros t. rewrite in_map_iff. split.
    + intros (w & <- & Hw). apply synthesized_weights_In in Hw.
      destruct Hw as (c & Hin & <- & Hpos). now exists c.
    + intros (c & Hin & Hpos & ->). exists (Card.weight c). split; [reflexivity|].
      apply synthesized_weights_In. now exists c.
Qed.

Lemma tiers_synthesized_from_cards_witness :
  read_cards str_unused int_unused scenario_files = Ok [Alpha; Beta] /\
  no_tiers_given (tiers_path scenario_files) = true /\
  exists tiers,
    reload str_unused int_unused scenario_files (mk_repo [] [])
      = (Ok tt, mk_repo [Alpha; Beta] tiers) /\
    StronglySorted (fun a b => Tier.min_weight b < Tier.min_weight a) tiers /\
    forall t, In t tiers <->
              exists c, In c [Alpha; Beta] /\ Card.weight c > 0 /\
                        t = Tier.mk ("Poids >= " ++ str_of_int (Card.weight c))
                                    (Card.weight c).
Proof.
  assert (H : read_cards str_unused int_unused scenario_files = Ok [Alpha; Beta])
    by reflexivity.
  assert (Hn : no_tiers_given (tiers_path scenario_files) = true) by reflexivity.
  split; [exact H|]. split; [exact Hn|].
  apply (proj1 tiers_synthesized_from_cards str_unused int_unused scenario_files
           (mk_repo [] []) [Alpha; Beta] H Hn).
Defined.

(** C10: when the cards file loads and the tier list is synthesized from the
    cards, [reload] succeeds and [tier_for_card] then sends every loaded card
    of positive weight [w] to "Poids >= w", and every loaded card of weight at
    most 0 to "Inconnu". *)
Theorem synthesized_tier_of_card
  (py_str_other : json -> string) (py_int_other : json -> option Z)
  (fs : files) (self : repo) (cards : list Card.t) :
  read_cards py_str_other py_int_other fs = Ok cards ->
  no_tiers_given (tiers_path fs) = true ->
  exists self',
    reload py_str_other py_int_other fs self = (Ok tt, self') /\
    _cards self' = cards /\
    forall c, In c cards ->
      (Card.weight c > 0 ->
       tier_for_card self' c = ("Poids >= " ++ str_of_int (Card.weight c))%string) /\
      (Card.weight c <= 0 -> tier_for_card self' c = "Inconnu").
Proof.
  intros Hc Hn.
  exists (mk_repo cards (map weight_tier (synthesized_weights cards))).
  split; [|split; [reflexivity|]].
  - rewrite reload_cases, Hc, (read_tiers_none _ _ fs Hn). cbn [is_nil].
    now rewrite sorted_tiers_from_cards.
  - intros c Hin. unfold tier_for_card. cbn [_tiers]. split; intros Hw.
    + apply (tier_scan_own _ _ (synthesized_weights_strict cards)).
      apply synthesized_weights_In. now exists c.
    + apply tier_scan_below. intros x Hx.
      apply synthesized_weights_In in Hx. destruct Hx as (_ & _ & _ & Hx). lia.
Qed.

Lemma synthesized_tier_of_card_witness :
  read_cards str_unused int_unused scenario_files = Ok [Alpha; Beta] /\
  no_tiers_given (tiers_path scenario_files) = true /\
  exists self',
    reload str_unused int_unused scenario_files (mk_repo [] []) = (Ok tt, self') /\
    _cards self' = [Alpha; Beta] /\
    forall c, In c [Alpha; Beta] ->
      (Card.weight c > 0 ->
       tier_for_card self' c = ("Poids >= " ++ str_of_int (Card.weight c))%string) /\
      (Card.weight c <= 0 -> tier_for_card self' c = "Inconnu").
Proof.
  assert (H : read_cards str_unused int_unused scenario_files = Ok [Alpha; Beta])
    by reflexivity.
  assert (Hn : no_tiers_given (tiers_path scenario_files) = true) by reflexivity.
  split; [exact H|]. split; [exact Hn|].
  apply (synthesized_tier_of_card str_unused int_unused scenario_files
           (mk_repo [] []) [Alpha; Beta] H Hn).
Defined.

(** ** Claims on [find_card] *)

Lemma is_empty_false s : s <> EmptyString -> is_empty s = false.
Proof. destruct s; [congruence | reflexivity]. Qed.

Lemma first_card_among test cs c :
  In c cs -> test c = true ->
  exists c', first_card test cs = Some c' /\ test c' = true.
Proof.
  induction cs as [|x cs IH]; intros Hin Ht; [contradiction|]. cbn.
  destruct (test x) eqn:E; [now exists x|].
  destruct Hin as [->|Hin]; [congruence | now apply IH].
Qed.






(** ** The chunks of [lootrate] *)

Section Chunks.

Lemma str_len_app u v : str_len (u ++ v) = str_len u + str_len v.
Proof.
  unfold str_len. induction u as [|c u IH]; cbn [String.append String.length].
  - lia.
  - rewrite !Nat2Z.inj_succ, IH. lia.
Qed.

Lemma chunk_cost_app a b : chunk_cost (a ++ b) = chunk_cost a + chunk_cost b.
Proof.
  unfold chunk_cost. induction a as [|x a IH]; cbn [app fold_right];
    [reflexivity | rewrite IH; lia].
Qed.

Lemma chunk_cost_pos chunk : 0 <= chunk_cost chunk.
Proof.
  unfold chunk_cost. induction chunk as [|x a IH]; cbn [fold_right]; [lia|].
  unfold line_cost, str_len in *. lia.
Qed.

(** A field holds one newline fewer than its chunk has lines. *)
Lemma join_lines_len chunk :
  chunk <> [] -> str_len (join_lines chunk) = chunk_cost chunk - 1.
Proof.
  induction chunk as [|x [|y r] IH]; intros H; [congruence| |].
  - cbn. unfold line_cost. lia.
  - change (join_lines (x :: y :: r))
      with (x ++ newline ++ join_lines (y :: r))%string.
    rewrite !str_len_app, IH by discriminate.
    change (chunk_cost (x :: y :: r)) with (line_cost x + chunk_cost (y :: r)).
    unfold line_cost. change (str_len newline) with 1. lia.
Qed.

Lemma chunk_step_inv done st line :
  chunker_inv done st -> chunker_inv (done ++ [line]) (chunk_step st line).
Proof.
  intros [Hl Hn He Hc]. unfold chunk_step.
  destruct (negb (is_nil (current st)) && (current_len st + (str_len line + 1) >? 1024))
    eqn:E.
  - apply andb_true_iff in E. destruct E as [Ene _].
    assert (Hcur : current st <> []) by (destruct (current st); [discriminate | congruence]).
    constructor; cbn.
    + rewrite concat_app. cbn. rewrite app_nil_r, Hl. reflexivity.
    + unfold line_cost. lia.
    + apply Forall_app. split; [exact He|]. constructor; [|constructor].
      destruct Hc as [Hc|Hc]; [contradiction | exact Hc].
    + right. split; [discriminate | right; now exists line].
  - constructor; cbn.
    + now rewrite app_assoc, Hl.
    + rewrite chunk_cost_app, Hn. cbn. unfold line_cost. lia.
    + exact He.
    + right. split; [now destruct (current st)|].
      apply andb_false_iff in E. destruct E as [E|E].
      * destruct (current st); [right; now exists line | discriminate].
      * left. rewrite chunk_cost_app, <- Hn. cbn. unfold line_cost.
        rewrite Z.gtb_ltb in E. apply Z.ltb_ge in E. lia.
Qed.

Lemma chunk_loop_inv lines done st :
  chunker_inv done st -> chunker_inv (done ++ lines) (fold_left chunk_step lines st).
Proof.
  revert done st; induction lines as [|line lines IH]; intros done st H; cbn.
  - now rewrite app_nil_r.
  - replace (done ++ line :: lines) with ((done ++ [line]) ++ lines)
      by now rewrite <- app_assoc.
    apply IH, chunk_step_inv, H.
Qed.

Lemma lootrate_chunks_inv lines :
  List.concat (lootrate_chunks lines) = lines /\ Forall chunk_ok (lootrate_chunks lines).
Proof.
  assert (H0 : chunker_inv [] (mk_chunker [] [] 0)).
  { constructor; cbn; [reflexivity | reflexivity | constructor | now left]. }
  destruct (chunk_loop_inv lines [] _ H0) as [Hl _ He Hc]. cbn in Hl.
  unfold lootrate_chunks.
  destruct (current (fold_left chunk_step lines (mk_chunker [] [] 0))) as [|x r] eqn:E; cbn.
  - rewrite app_nil_r in Hl. now split.
  - split.
    + rewrite concat_app. cbn. now rewrite app_nil_r.
    + apply Forall_app. split; [exact He|]. constructor; [|constructor].
      destruct Hc as [Hc|Hc]; [discriminate | exact Hc].
Qed.

End Chunks.

(** C3, as stated, fails: the loop never splits a line, so a report line
    longer than the limit makes a field longer than the limit. The line of a
    card with a 1020-letter name is 1035 characters long and is a chunk by
    itself. *)
Lemma lootrate_long_line :
  lootrate_chunks [long_line] = [[long_line]] /\
  str_len (join_lines [long_line]) = 1035 /\
  ~ (forall chunk, In chunk (lootrate_chunks [long_line]) ->
                   str_len (join_lines chunk) <= 1024).
Proof.
  assert (H : lootrate_chunks [long_line] = [[long_line]]) by (vm_compute; reflexivity).
  assert (L : str_len (join_lines [long_line]) = 1035) by (vm_compute; reflexivity).
  split; [exact H|]. split; [exact L|].
  intros F. specialize (F [long_line]). rewrite H, L in F.
  specialize (F (or_introl eq_refl)). lia.
Qed.

(** C3, amended: the chunks, concatenated in order, are the input lines, each
    once and in the original order; a chunk joined with newlines is at most
    1024 characters long unless it is a single line that is itself longer; so
    when no line is longer than 1024 characters, no chunk is. *)
Theorem lootrate_chunks_bounded (all_lines : list string) :
  List.concat (lootrate_chunks all_lines) = all_lines /\
  (forall chunk, In chunk (lootrate_chunks all_lines) ->
     str_len (join_lines chunk) <= 1024 \/
     exists line, chunk = [line] /\ In line all_lines /\ 1024 < str_len line) /\
  ((forall line, In line all_lines -> str_len line <= 1024) ->
   forall chunk, In chunk (lootrate_chunks all_lines) ->
     str_len (join_lines chunk) <= 1024).
Proof.
  destruct (lootrate_chunks_inv all_lines) as [Hc Hok].
  assert (Hgen : forall chunk, In chunk (lootrate_chunks all_lines) ->
     str_len (join_lines chunk) <= 1024 \/
     exists line, chunk = [line] /\ In line all_lines /\ 1024 < str_len line).
  { intros chunk Hin. rewrite Forall_forall in Hok.
    destruct (Hok chunk Hin) as [Hne [Hle|[line ->]]].
    - left. rewrite (join_lines_len chunk Hne). lia.
    - destruct (Z_le_gt_dec (str_len line) 1024) as [Hs|Hs]; [now left|].
      right. exists line. split; [reflexivity|]. split; [|lia].
      rewrite <- Hc. apply in_concat. exists [line]. split; [exact Hin | now left]. }
  split; [exact Hc|]. split; [exact Hgen|].
  intros Hshort chunk Hin.
  destruct (Hgen chunk Hin) as [H|(line & _ & Hl & Hlong)]; [exact H|].
  specialize (Hshort line Hl). lia.
Qed.

Lemma lootrate_chunks_bounded_witness :
  (forall line, In line ["**Alpha** : 70.000%"; "**Beta** : 30.000%"] ->
                str_len line <= 1024) /\
  forall chunk,
    In chunk (lootrate_chunks ["**Alpha** : 70.000%"; "**Beta** : 30.000%"]) ->
    str_len (join_lines chunk) <= 1024.
Proof.
  assert (Hs : forall line, In line ["**Alpha** : 70.000%"; "**Beta** : 30.000%"] ->
                            str_len line <= 1024).
  { intros line [<-|[<-|[]]]; vm_compute; discriminate. }
  split; [exact Hs|].
  exact (proj2 (proj2 (lootrate_chunks_bounded
                         ["**Alpha** : 70.000%"; "**Beta** : 30.000%"])) Hs).
Defined.

(** ** Insertion-ordered dicts *)

Section Dicts.

Context {V : Type}.
Implicit Types (d : list (string * V)) (k : string) (v : V).

Lemma dict_mem_keys k d : dict_mem k d = true <-> In k (map fst d).
Proof.
  induction d as [|[k' v'] d IH]; cbn; [split; [discriminate | contradiction]|].
  rewrite orb_true_iff, String.eqb_eq, IH. reflexivity.
Qed.

Lemma dict_set_new k v d : ~ In k (map fst d) -> dict_set k v d = d ++ [(k, v)].
Proof.
  induction d as [|[k' v'] d IH]; cbn; intros H; [reflexivity|].
  destruct (String.eqb_spec k' k) as [E|E]; [tauto|].
  rewrite IH; [reflexivity | tauto].
Qed.

Lemma dict_set_keys k v d :
  In k (map fst d) -> map fst (dict_set k v d) = map fst d.
Proof.
  induction d as [|[k' v'] d IH]; cbn; intros H; [contradiction|].
  destruct (String.eqb_spec k' k) as [E|E]; [reflexivity|].
  cbn. rewrite IH; [reflexivity|]. destruct H; [contradiction | assumption].
Qed.

Lemma dict_set_nodup k v d : NoDup (map fst d) -> NoDup (map fst (dict_set k v d)).
Proof.
  intros H. destruct (in_dec string_dec k (map fst d)) as [Hin|Hin].
  - now rewrite dict_set_keys.
  - rewrite dict_set_new, map_app by assumption. cbn.
    apply NoDup_app; [exact H | repeat constructor; intros [] |].
    intros x Hx [<-|[]]. contradiction.
Qed.

Lemma dict_set_in k v d kv : In kv (dict_set k v d) -> kv = (k, v) \/ In kv d.
Proof.
  induction d as [|[k' v'] d IH]; cbn.
  - intros [<-|[]]. now left.
  - destruct (String.eqb_spec k' k) as [->|E]; cbn.
    + intros [<-|H]; [now left | right; now right].
    + intros [<-|H]; [right; now left|].
      destruct (IH H); [now left | right; now right].
Qed.

Lemma dict_get_in k d default : dict_mem k d = true -> In (k, dict_get d k default) d.
Proof.
  induction d as [|[k' v'] d IH]; cbn; [discriminate|].
  destruct (String.eqb_spec k' k) as [->|E]; cbn; [now left | right; now apply IH].
Qed.

Lemma keys_nodup_fun d k v v' :
  NoDup (map fst d) -> In (k, v) d -> In (k, v') d -> v = v'.
Proof.
  induction d as [|[k0 v0] d IH]; cbn; [contradiction|].
  intros Hn. inversion Hn as [|? ? Hk Hd]; subst.
  intros [[= -> ->]|H1] [[= <-]|H2]; try reflexivity.
  - destruct Hk. apply (in_map fst) in H2. exact H2.
  - destruct Hk. apply (in_map fst) in H1. exact H1.
  - now apply IH.
Qed.

Lemma keys_nodup_list d : NoDup (map fst d) -> NoDup d.
Proof. apply NoDup_map_inv. Qed.

End Dicts.

(** ** Weights, probabilities and the summary *)

Section Summary.

Lemma fold_left_sum {A : Type} (g : A -> Z) (l : list A) (a : Z) :
  fold_left (fun acc x => acc + g x) l a = a + fold_right (fun x acc => g x + acc) 0 l.
Proof.
  revert a; induction l as [|x l IH]; intros a; cbn; [lia|]. rewrite IH. lia.
Qed.

Lemma total_weight_sum self : total_weight self = weight_sum (_cards self).
Proof.
  unfold total_weight, weight_sum.
  now rewrite (fold_left_sum (fun c => Z.max 0 (Card.weight c))).
Qed.

Lemma weight_sum_nonneg cs : 0 <= weight_sum cs.
Proof. unfold weight_sum. induction cs as [|c cs IH]; cbn [fold_right]; lia. Qed.

Lemma dict_sum_app a b : dict_sum (a ++ b) = dict_sum a + dict_sum b.
Proof.
  unfold dict_sum. induction a as [|x a IH]; cbn [app fold_right]; [reflexivity|].
  rewrite IH. lia.
Qed.

Lemma dict_sum_set d k v :
  dict_sum (dict_set k v d) = dict_sum d - dict_get d k 0 + v.
Proof.
  induction d as [|[k' v'] d IH]; cbn; [lia|].
  destruct (String.eqb k' k); cbn; [lia|].
  fold (dict_sum (dict_set k v d)). fold (dict_sum d). rewrite IH. lia.
Qed.

(** The per-tier sums have distinct keys and add up to the total weight. *)
Lemma summary_sums_spec self :
  NoDup (map fst (summary_sums self)) /\
  dict_sum (summary_sums self) = total_weight self.
Proof.
  rewrite total_weight_sum. unfold summary_sums.
  assert (G : forall cs acc, NoDup (map fst acc) ->
    let r := fold_left
               (fun sums c =>
                  let tier := tier_for_card self c in
                  dict_set tier (dict_get sums tier 0 + Z.max 0 (Card.weight c)) sums)
               cs acc in
    NoDup (map fst r) /\ dict_sum r = dict_sum acc + weight_sum cs).
  { induction cs as [|c cs IH]; intros acc Hacc r; subst r; cbn [fold_left].
    - split; [exact Hacc|]. change (weight_sum []) with 0. lia.
    - destruct (IH _ (dict_set_nodup (tier_for_card self c)
                        (dict_get acc (tier_for_card self c) 0 + Z.max 0 (Card.weight c))
                        acc Hacc)) as [Hn Hs].
      split; [exact Hn|]. refine (eq_trans Hs _). rewrite dict_sum_set.
      change (weight_sum (c :: cs)) with (Z.max 0 (Card.weight c) + weight_sum cs).
      lia. }
  destruct (G (_cards self) [] (NoDup_nil _)) as [Hn Hs].
  split; [exact Hn | exact Hs].
Qed.

Lemma summary_out_map total sums :
  NoDup (map fst sums) ->
  summary_out total sums =
  map (fun kv => (fst kv, (snd kv, pct_of total (snd kv)))) sums.
Proof.
  unfold summary_out.
  assert (G : forall l acc, NoDup (map fst acc ++ map fst l) ->
    fold_left
      (fun out item => dict_set (fst item) (snd item, pct_of total (snd item)) out)
      l acc
    = acc ++ map (fun kv => (fst kv, (snd kv, pct_of total (snd kv)))) l).
  { induction l as [|[k w] l IH]; intros acc H; cbn.
    - now rewrite app_nil_r.
    - rewrite dict_set_new.
      + rewrite IH.
        * now rewrite <- app_assoc.
        * rewrite map_app, <- app_assoc. exact H.
      + cbn in H. apply NoDup_remove_2 in H. intros Hin. apply H.
        apply in_or_app. now left. }
  intros H. apply (G sums []). exact H.
Qed.

Lemma sum_pct_map total sums :
  (sum_pct (map (fun kv => (fst kv, (snd kv, pct_of total (snd kv)))) sums)
   == if total >? 0 then inject_Z (dict_sum sums) / inject_Z total * 100 else 0)%Q.
Proof.
  induction sums as [|[k w] sums IH].
  - cbn. destruct (total >? 0); [|reflexivity]. unfold Qdiv. ring.
  - change (sum_pct (map (fun kv => (fst kv, (snd kv, pct_of total (snd kv))))
                         ((k, w) :: sums)))
      with (pct_of total w +
            sum_pct (map (fun kv => (fst kv, (snd kv, pct_of total (snd kv)))) sums))%Q.
    rewrite IH. change (dict_sum ((k, w) :: sums)) with (w + dict_sum sums).
    unfold pct_of. destruct (total >? 0); [|ring].
    rewrite inject_Z_plus. unfold Qdiv. ring.
Qed.

Lemma sum_pct_perm a b : Permutation a b -> (sum_pct a == sum_pct b)%Q.
Proof.
  induction 1 as [|x a b _ IH|x y a|a b c _ IH1 _ IH2]; cbn.
  - reflexivity.
  - now rewrite IH.
  - ring.
  - now rewrite IH1.
Qed.

End Summary.

Section SummaryOrder.

Variable out : list (string * (Z * Q)).
Hypothesis out_keys : NoDup (map fst out).

Lemma summary_ordered_inv tiers :
  NoDup (map fst (summary_ordered tiers out)) /\ incl (summary_ordered tiers out) out.
Proof.
  unfold summary_ordered.
  assert (G : forall acc, NoDup (map fst acc) -> incl acc out ->
    let r := fold_left
               (fun ordered t =>
                  if dict_mem (Tier.name t) out
                  then dict_set (Tier.name t) (dict_get out (Tier.name t) (0, 0%Q)) ordered
                  else ordered)
               tiers acc in
    NoDup (map fst r) /\ incl r out).
  { induction tiers as [|t tiers IH]; intros acc Hn Hi r; subst r; cbn [fold_left].
    - now split.
    - apply IH.
      + destruct (dict_mem (Tier.name t) out); [now apply dict_set_nodup | exact Hn].
      + destruct (dict_mem (Tier.name t) out) eqn:E; [|exact Hi].
        intros kv Hkv. apply dict_set_in in Hkv. destruct Hkv as [->|Hkv].
        * now apply dict_get_in.
        * now apply Hi. }
  apply G; [constructor | intros x []].
Qed.

Lemma summary_rest_inv l ordered :
  incl l out -> NoDup (map fst ordered) -> incl ordered out ->
  let r := fold_left
             (fun ordered item =>
                if negb (dict_mem (fst item) ordered)
                then dict_set (fst item) (snd item) ordered
                else ordered)
             l ordered in
  NoDup (map fst r) /\ incl r out /\ incl ordered r /\ incl l r.
Proof.
  revert ordered; induction l as [|[k v] l IH]; intros ordered Hl Hn Hi r; subst r;
    cbn [fold_left].
  - repeat split; [exact Hn | exact Hi | apply incl_refl | intros x []].
  - assert (Hkv : In (k, v) out) by (apply Hl; now left).
    assert (Hl' : incl l out) by (intros x Hx; apply Hl; now right).
    cbn [fst snd].
    destruct (dict_mem k ordered) eqn:E; cbn [negb].
    + destruct (IH ordered Hl' Hn Hi) as (H1 & H2 & H3 & H4).
      repeat split; [exact H1 | exact H2 | exact H3 |].
      intros x [<-|Hx]; [|now apply H4]. apply H3.
      apply dict_mem_keys, in_map_iff in E. destruct E as ([k' v'] & Ek & Hin).
      cbn in Ek. subst k'.
      now rewrite (keys_nodup_fun out k v v' out_keys Hkv (Hi _ Hin)).
    + assert (Hk : ~ In k (map fst ordered)).
      { intros Hin. apply dict_mem_keys in Hin. congruence. }
      rewrite (dict_set_new k v ordered Hk).
      destruct (IH (ordered ++ [(k, v)]) Hl') as (H1 & H2 & H3 & H4).
      * rewrite <- (dict_set_new k v ordered Hk). now apply dict_set_nodup.
      * intros x Hx. apply in_app_or in Hx. destruct Hx as [Hx|[<-|[]]];
          [now apply Hi | exact Hkv].
      * repeat split; [exact H1 | exact H2 | |].
        -- intros x Hx. apply H3, in_or_app. now left.
        -- intros x [<-|Hx]; [|now apply H4]. apply H3, in_or_app. right. now left.
Qed.

(** Reordering keeps every entry, once. *)
Lemma summary_rest_perm tiers :
  Permutation out (summary_rest out (summary_ordered tiers out)).
Proof.
  destruct (summary_ordered_inv tiers) as [Hn Hi].
  destruct (summary_rest_inv out _ (incl_refl out) Hn Hi) as (H1 & H2 & _ & H4).
  apply NoDup_Permutation.
  - now apply keys_nodup_list.
  - apply keys_nodup_list. exact H1.
  - intros x. split; [apply H4 | apply H2].
Qed.

End SummaryOrder.

Lemma summary_by_tier_perm self :
  Permutation
    (map (fun kv => (fst kv, (snd kv, pct_of (total_weight self) (snd kv))))
         (summary_sums self))
    (summary_by_tier self).
Proof.
  destruct (summary_sums_spec self) as [Hn _].
  unfold summary_by_tier. cbv zeta.
  rewrite (summary_out_map _ _ Hn).
  apply summary_rest_perm. rewrite map_map. cbn. exact Hn.
Qed.

(** ** Claims on the sums *)

(** C7: the percentages of [summary_by_tier] add up to 100 when the total
    weight is positive; when it is 0 every percentage is 0, and so is their
    sum. *)
Theorem summary_percentages (self : repo) :
  (total_weight self > 0 -> (sum_pct (summary_by_tier self) == 100)%Q) /\
  (total_weight self = 0 ->
   (forall tier wsum pct, In (tier, (wsum, pct)) (summary_by_tier self) -> pct = 0%Q) /\
   (sum_pct (summary_by_tier self) == 0)%Q).
Proof.
  pose proof (summary_by_tier_perm self) as Hp.
  destruct (summary_sums_spec self) as [_ Hs].
  split; intros Ht.
  - rewrite <- (sum_pct_perm _ _ Hp), sum_pct_map, Hs.
    replace (total_weight self >? 0) with true by (symmetry; apply Z.gtb_gt; lia).
    unfold Qdiv. rewrite Qmult_inv_r; [reflexivity|].
    unfold Qeq. cbn. lia.
  - split.
    + intros tier wsum pct Hin.
      apply (Permutation_in _ (Permutation_sym Hp)), in_map_iff in Hin.
      destruct Hin as ([k w] & [= _ _ <-] & _). cbn [snd].
      unfold pct_of. now rewrite Ht.
    + rewrite <- (sum_pct_perm _ _ Hp), sum_pct_map. now rewrite Ht.
Qed.

Lemma summary_percentages_witness :
  total_weight scenario_repo > 0 /\
  (sum_pct (summary_by_tier scenario_repo) == 100)%Q /\
  total_weight (mk_repo [] []) = 0 /\
  (sum_pct (summary_by_tier (mk_repo [] [])) == 0)%Q.
Proof.
  assert (H1 : total_weight scenario_repo > 0) by (vm_compute; reflexivity).
  assert (H0 : total_weight (mk_repo [] []) = 0) by reflexivity.
  split; [exact H1|]. split; [exact (proj1 (summary_percentages scenario_repo) H1)|].
  split; [exact H0|].
  exact (proj2 (proj2 (summary_percentages (mk_repo [] [])) H0)).
Defined.

(** With the total weight positive, the probabilities add up to the sum of
    the raw weights over the sum of the clamped ones. *)
Lemma sum_probabilities_ratio self :
  total_weight self > 0 ->
  (sum_probabilities self ==
   inject_Z (fold_right (fun c acc => (Card.weight c + acc)%Z) 0%Z (_cards self))
   / inject_Z (total_weight self))%Q.
Proof.
  intros Ht. unfold sum_probabilities.
  induction (_cards self) as [|c cs IH]; cbn [fold_right].
  - unfold Qdiv. ring.
  - rewrite IH, inject_Z_plus. unfold probability.
    replace (total_weight self >? 0) with true by (symmetry; apply Z.gtb_gt; lia).
    unfold Qdiv. ring.
Qed.

(** Without negative weights the probabilities do add up to 1. *)
Lemma sum_probabilities_nonneg self :
  (forall c, In c (_cards self) -> 0 <= Card.weight c) ->
  total_weight self > 0 ->
  (sum_probabilities self == 1)%Q.
Proof.
  intros Hw Ht. rewrite (sum_probabilities_ratio self Ht).
  assert (E : fold_right (fun c acc => Card.weight c + acc) 0 (_cards self)
              = total_weight self).
  { rewrite total_weight_sum. unfold weight_sum.
    induction (_cards self) as [|c cs IH]; cbn [fold_right]; [reflexivity|].
    rewrite IH by (intros x Hx; apply Hw; now right).
    specialize (Hw c (or_introl eq_refl)). lia. }
  rewrite E. unfold Qdiv. rewrite Qmult_inv_r; [reflexivity|].
  unfold Qeq. cbn. lia.
Qed.

(** C1 on a cards file with a negative weight: [total_weight] clamps the -5
    to 0 and is 10, [probability] does not clamp and gives 1 and -1/2, and
    the probabilities add up to 1/2, not to 1. *)
Theorem probabilities_with_negative_weight :
  new str_unused int_unused negative_files = Ok negative_repo /\
  total_weight negative_repo = 10 /\
  (sum_probabilities negative_repo == 1 # 2)%Q /\
  ~ (sum_probabilities negative_repo == 1)%Q.
Proof.
  split; [reflexivity|]. split; [reflexivity|].
  split; [vm_compute; reflexivity | vm_compute; discriminate].
Qed.

(** * Further properties of the code *)

(** ** [normalize] *)

Lemma lower_char_idem c : lower_char (lower_char c) = lower_char c.
Proof. destruct c as [[] [] [] [] [] [] [] []]; reflexivity. Qed.

Lemma lower_idem s : lower (lower s) = lower s.
Proof. induction s as [|c s IH]; cbn; [reflexivity | now rewrite lower_char_idem, IH]. Qed.

Lemma sub_ws_idem b s : sub_ws b (sub_ws b s) = sub_ws b s.
Proof.
  revert b; induction s as [|c s IH]; intros b; cbn; [reflexivity|].
  destruct (is_space c) eqn:E.
  - destruct b; [apply IH|]. cbn. now rewrite IH.
  - cbn. now rewrite E, IH.
Qed.

Lemma lstrip_rstrip_lstrip s : lstrip (rstrip (lstrip s)) = rstrip (lstrip s).
Proof.
  induction s as [|c s IH]; [reflexivity|]. cbn [lstrip].
  destruct (is_space c) eqn:E; [exact IH|].
  cbn [rstrip]. rewrite E. cbn. now rewrite E.
Qed.

Lemma strip_idem s : strip (strip s) = strip s.
Proof. unfold strip. now rewrite lstrip_rstrip_lstrip, rstrip_idem. Qed.

Lemma lstrip_blank s : lstrip s = EmptyString <-> blank s.
Proof.
  unfold blank. induction s as [|c s IH]; cbn.
  - split; [constructor | reflexivity].
  - destruct (is_space c) eqn:E.
    + rewrite IH. split; [now constructor | now inversion 1].
    + split; [discriminate|]. inversion 1. congruence.
Qed.

Lemma rstrip_lstrip_empty s : rstrip (lstrip s) = EmptyString -> lstrip s = EmptyString.
Proof.
  induction s as [|c s IH]; [reflexivity|]. cbn [lstrip].
  destruct (is_space c) eqn:E; [exact IH|].
  cbn [rstrip]. rewrite E. discriminate.
Qed.

Lemma lower_empty s : lower s = EmptyString -> s = EmptyString.
Proof. destruct s; [reflexivity | discriminate]. Qed.

Lemma normalize_empty_blank s : normalize s = EmptyString <-> blank s.
Proof.
  rewrite <- lstrip_blank. unfold normalize, re_sub_ws, strip. split.
  - intros H. apply sub_ws_empty in H. rewrite rstrip_lower in H.
    apply lower_empty in H. rewrite rstrip_idem in H.
    now apply rstrip_lstrip_empty.
  - intros ->. reflexivity.
Qed.




(** ** [find_card] *)

Lemma first_card_sound test cs c :
  first_card test cs = Some c -> In c cs /\ test c = true.
Proof.
  induction cs as [|x cs IH]; cbn; [discriminate|].
  destruct (test x) eqn:E.
  - intros [= <-]. split; [now left | exact E].
  - intros H. destruct (IH H) as [Hin Ht]. split; [now right | exact Ht].
Qed.

Lemma first_card_none_iff test cs :
  first_card test cs = None <-> forall c, In c cs -> test c = false.
Proof.
  induction cs as [|x cs IH]; cbn.
  - split; [intros _ c [] | reflexivity].
  - destruct (test x) eqn:E.
    + split; [discriminate|]. intros H. specialize (H x (or_introl eq_refl)). congruence.
    + rewrite IH. split.
      * intros H c [<-|Hc]; [exact E | now apply H].
      * intros H c Hc. apply H. now right.
Qed.

Lemma append_empty_r s : (s ++ EmptyString)%string = s.
Proof. induction s as [|c s IH]; cbn; [reflexivity | now rewrite IH]. Qed.

Lemma occurs_in_refl s : occurs_in s s.
Proof. exists EmptyString, EmptyString. cbn. now rewrite append_empty_r. Qed.

(** X3: whatever [find_card] returns is a loaded card whose normalised key
    equals the normalised query or whose normalised name contains it; and it
    returns nothing exactly when the normalised query is empty or no loaded
    card matches in either way. *)
Theorem find_card_hits (self : repo) (query : string) :
  (forall c, find_card self query = Some c ->
     In c (_cards self) /\ normalize query <> EmptyString /\
     (normalize (Card.key c) = normalize query \/
      occurs_in (normalize query) (normalize (Card.name c)))) /\
  (find_card self query = None <->
   normalize query = EmptyString \/
   forall c, In c (_cards self) ->
     normalize (Card.key c) <> normalize query /\
     ~ occurs_in (normalize query) (normalize (Card.name c))).
Proof.
  unfold find_card. set (q := normalize query). set (cs := _cards self).
  destruct (is_empty q) eqn:Eq.
  { apply is_empty_true in Eq. split; [discriminate|]. split; [now left | reflexivity]. }
  assert (Hq : q <> EmptyString) by (intros E; rewrite E in Eq; discriminate).
  destruct (first_card (fun c => String.eqb (normalize (Card.key c)) q) cs) as [c1|] eqn:E1.
  { apply first_card_sound in E1. destruct E1 as [Hin Ht]. apply String.eqb_eq in Ht. split.
    - intros c [= <-]. split; [exact Hin|]. split; [exact Hq | now left].
    - split; [discriminate|]. intros [E|H]; [contradiction|].
      destruct (H c1 Hin) as [Hk _]. contradiction. }
  destruct (first_card (fun c => String.eqb (normalize (Card.name c)) q) cs) as [c2|] eqn:E2.
  { apply first_card_sound in E2. destruct E2 as [Hin Ht]. apply String.eqb_eq in Ht. split.
    - intros c [= <-]. split; [exact Hin|]. split; [exact Hq|]. right. rewrite Ht.
      apply occurs_in_refl.
    - split; [discriminate|]. intros [E|H]; [contradiction|].
      destruct (H c2 Hin) as [_ Hn]. destruct Hn. rewrite Ht. apply occurs_in_refl. }
  destruct (first_card (fun c => contains q (normalize (Card.name c))) cs) as [c3|] eqn:E3.
  { apply first_card_sound in E3. destruct E3 as [Hin Ht]. apply contains_spec in Ht. split.
    - intros c [= <-]. split; [exact Hin|]. split; [exact Hq | now right].
    - split; [discriminate|]. intros [E|H]; [contradiction|].
      destruct (H c3 Hin) as [_ Hn]. contradiction. }
  split; [discriminate|]. split; [|reflexivity]. intros _. right. intros c Hc.
  rewrite first_card_none_iff in E1, E3. split.
  - intros E. specialize (E1 c Hc). cbn in E1. apply String.eqb_neq in E1. contradiction.
  - intros O. apply contains_spec in O. specialize (E3 c Hc). cbn in E3. congruence.
Qed.

Lemma find_card_hits_witness :
  find_card scenario_repo "alp" = Some Alpha /\
  In Alpha (_cards scenario_repo) /\ normalize "alp" <> EmptyString /\
  (normalize (Card.key Alpha) = normalize "alp" \/
   occurs_in (normalize "alp") (normalize (Card.name Alpha))).
Proof.
  assert (H : find_card scenario_repo "alp" = Some Alpha) by reflexivity.
  split; [exact H|].
  exact (proj1 (find_card_hits scenario_repo "alp") Alpha H).
Defined.

(** ** [reload], again *)

Section ReloadMore.

Variable py_str_other : json -> string.
Variable py_int_other : json -> option Z.

Local Abbreviation reload' := (reload py_str_other py_int_other).
Local Abbreviation read_cards' := (read_cards py_str_other py_int_other).
Local Abbreviation read_tiers' := (read_tiers py_str_other py_int_other).
Local Abbreviation card_of := (Card.from_dict py_str_other py_int_other).
Local Abbreviation tier_of_doc := (Tier.from_dict py_str_other py_int_other).

Lemma comprehension_raise {A B : Type} (f : A -> result B) l e :
  comprehension f l = Raise e -> exists x, In x l /\ f x = Raise e.
Proof.
  induction l as [|x l IH]; cbn; [discriminate|].
  destruct (f x) as [y|e'] eqn:E.
  - destruct (comprehension f l) as [ys|e'']; [discriminate|].
    intros [= <-]. destruct (IH eq_refl) as (z & Hz & Ez). exists z. split; [now right | exact Ez].
  - intros [= <-]. exists x. split; [now left | exact E].
Qed.

Lemma comprehension_ok {A B : Type} (f : A -> result B) l ys :
  comprehension f l = Ok ys -> Forall2 (fun x y => f x = Ok y) l ys.
Proof.
  revert ys; induction l as [|x l IH]; cbn; intros ys.
  - intros [= <-]. constructor.
  - destruct (f x) as [y|e] eqn:E; [|discriminate].
    destruct (comprehension f l) as [ys'|e]; [|discriminate].
    intros [= <-]. constructor; [exact E | now apply IH].
Qed.

Lemma py_int_raise v e :
  py_int py_int_other v = Raise e -> e = TypeError \/ e = ValueError.
Proof.
  destruct v; cbn; try discriminate; try (intros [= <-]; now left);
    destruct (py_int_other _); try discriminate; intros [= <-]; now right.
Qed.

Lemma card_of_raise d e :
  card_of d = Raise e -> e = AttributeError \/ e = TypeError \/ e = ValueError.
Proof.
  destruct d; cbn; try (intros [= <-]; now left).
  destruct (py_int py_int_other _) eqn:E; [discriminate|].
  intros [= <-]. apply py_int_raise in E. tauto.
Qed.

Lemma tier_of_doc_raise d e :
  tier_of_doc d = Raise e -> e = AttributeError \/ e = TypeError \/ e = ValueError.
Proof.
  destruct d; cbn; try (intros [= <-]; now left).
  destruct (py_int py_int_other _) eqn:E; [discriminate|].
  intros [= <-]. apply py_int_raise in E. tauto.
Qed.

Lemma read_cards_raise fs e :
  read_cards' fs = Raise e ->
  (e = FileNotFoundError /\ cards_path fs = Absent) \/
  (e = JSONDecodeError /\ cards_path fs = Malformed) \/
  (exists v, cards_path fs = Document v /\
             (e = AttributeError \/ e = TypeError \/ e = ValueError)).
Proof.
  unfold read_cards. destruct (cards_path fs) as [| |v]; cbn.
  - intros [= <-]. now left.
  - intros [= <-]. right. now left.
  - intros H. right. right. exists v. split; [reflexivity|].
    destruct (py_iter v) as [items|e'] eqn:E.
    + apply comprehension_raise in H. destruct H as (x & _ & Hx).
      now apply card_of_raise in Hx.
    + injection H as <-. destruct v; cbn in E; try discriminate; injection E as <-; tauto.
Qed.

Lemma read_tiers_raise fs e :
  read_tiers' fs = Raise e ->
  (e = JSONDecodeError /\ tiers_path fs = Malformed) \/
  (exists v, tiers_path fs = Document v /\
             (e = AttributeError \/ e = TypeError \/ e = ValueError)).
Proof.
  unfold read_tiers. destruct (tiers_path fs) as [| |v]; cbn.
  - discriminate.
  - intros [= <-]. now left.
  - intros H. right. exists v. split; [reflexivity|].
    destruct v; try discriminate.
    apply comprehension_raise in H. destruct H as (x & _ & Hx).
    now apply tier_of_doc_raise in Hx.
Qed.

End ReloadMore.

Lemma comprehension_fails {A B : Type} (f : A -> result B) l x e :
  In x l -> f x = Raise e -> exists e', comprehension f l = Raise e'.
Proof.
  induction l as [|y l IH]; [contradiction|]. intros [->|Hin] Hx; cbn.
  - rewrite Hx. now exists e.
  - destruct (f y) as [z|e1]; [|now exists e1].
    destruct (IH Hin Hx) as [e' ->]. now exists e'.
Qed.

(** X4: [reload] is idempotent: called again on the same files, it gives the
    same outcome (success or the same exception) and leaves the repository as
    the first call left it. *)
Theorem reload_idempotent
  (py_str_other : json -> string) (py_int_other : json -> option Z)
  (fs : files) (self : repo) :
  reload py_str_other py_int_other fs
    (snd (reload py_str_other py_int_other fs self))
  = reload py_str_other py_int_other fs self.
Proof.
  rewrite !reload_cases.
  destruct (read_cards py_str_other py_int_other fs) as [cards|e]; [|reflexivity].
  destruct (read_tiers py_str_other py_int_other fs) as [tiers|e]; reflexivity.
Qed.

(** X5: a successful [reload] replaces the repository wholesale: the state it
    leaves depends on the files only, not on what the repository held. *)
Theorem reload_replaces
  (py_str_other : json -> string) (py_int_other : json -> option Z)
  (fs : files) (self1 self2 after : repo) :
  reload py_str_other py_int_other fs self1 = (Ok tt, after) ->
  reload py_str_other py_int_other fs self2 = (Ok tt, after).
Proof.
  rewrite !reload_cases.
  destruct (read_cards py_str_other py_int_other fs) as [cards|e]; [|discriminate].
  destruct (read_tiers py_str_other py_int_other fs) as [tiers|e]; [|discriminate].
  intros [= <-]. reflexivity.
Qed.

Lemma reload_replaces_witness :
  reload str_unused int_unused scenario_files (mk_repo [] []) = (Ok tt, scenario_repo) /\
  reload str_unused int_unused scenario_files keyless_repo = (Ok tt, scenario_repo).
Proof.
  assert (H : reload str_unused int_unused scenario_files (mk_repo [] [])
              = (Ok tt, scenario_repo)) by reflexivity.
  split; [exact H|].
  exact (reload_replaces str_unused int_unused scenario_files (mk_repo [] [])
           keyless_repo scenario_repo H).
Defined.



(** X7: when the cards file holds a list, a successful [reload] keeps one
    card per entry, in file order, each the [Card.from_dict] of its entry
    (nothing is dropped, merged or validated); and an entry that is not an
    object makes [reload] fail and leaves the repository untouched. *)
Theorem reload_one_card_per_entry
  (py_str_other : json -> string) (py_int_other : json -> option Z)
  (fs : files) (self : repo) (entries : list json) :
  cards_path fs = Document (JList entries) ->
  (forall self',
      reload py_str_other py_int_other fs self = (Ok tt, self') ->
      Forall2 (fun entry card =>
                 Card.from_dict py_str_other py_int_other entry = Ok card)
              entries (_cards self') /\
      List.length (_cards self') = List.length entries) /\
  (forall entry,
      In entry entries -> (forall m, entry <> JDict m) ->
      exists e, reload py_str_other py_int_other fs self = (Raise e, self)).
Proof.
  intros Hdoc. split.
  - intros self' H. apply reload_ok in H.
    destruct H as (cards & given & Hc & _ & <- & _).
    unfold read_cards in Hc. rewrite Hdoc in Hc. cbn in Hc.
    apply comprehension_ok in Hc. split; [exact Hc|].
    symmetry. exact (Forall2_length Hc).
  - intros entry Hin Hnd. rewrite reload_cases. unfold read_cards.
    rewrite Hdoc. cbn [load_json py_iter].
    assert (Hr : Card.from_dict py_str_other py_int_other entry = Raise AttributeError).
    { destruct entry; try reflexivity. now destruct (Hnd d). }
    destruct (comprehension_fails _ entries entry _ Hin Hr) as [e ->].
    now exists e.
Qed.

Lemma reload_one_card_per_entry_witness :
  cards_path scenario_files = Document (JList [alpha_doc; beta_doc]) /\
  reload str_unused int_unused scenario_files (mk_repo [] []) = (Ok tt, scenario_repo) /\
  Forall2 (fun entry card => Card.from_dict str_unused int_unused entry = Ok card)
          [alpha_doc; beta_doc] (_cards scenario_repo) /\
  List.length (_cards scenario_repo) = List.length [alpha_doc; beta_doc].
Proof.
  assert (Hd : cards_path scenario_files = Document (JList [alpha_doc; beta_doc]))
    by reflexivity.
  assert (H : reload str_unused int_unused scenario_files (mk_repo [] [])
              = (Ok tt, scenario_repo)) by reflexivity.
  split; [exact Hd|]. split; [exact H|].
  exact (proj1 (reload_one_card_per_entry str_unused int_unused scenario_files
                  (mk_repo [] []) [alpha_doc; beta_doc] Hd) scenario_repo H).
Defined.

(** ** Weights and probabilities, again *)

Lemma weight_sum_zero cs :
  weight_sum cs = 0 <-> forall c, In c cs -> Card.weight c <= 0.
Proof.
  unfold weight_sum. induction cs as [|x cs IH]; cbn [fold_right].
  - split; [intros _ c [] | reflexivity].
  - pose proof (weight_sum_nonneg cs) as Hn. unfold weight_sum in Hn. split.
    + intros H c [<-|Hc]; [lia|]. apply IH; [lia | exact Hc].
    + intros H. pose proof (H x (or_introl eq_refl)).
      assert (E : fold_right (fun c acc => Z.max 0 (Card.weight c) + acc) 0 cs = 0).
      { apply IH. intros c Hc. apply H. now right. }
      lia.
Qed.

Lemma weight_sum_ge cs c : In c cs -> Z.max 0 (Card.weight c) <= weight_sum cs.
Proof.
  unfold weight_sum. induction cs as [|x cs IH]; [contradiction|]. cbn [fold_right].
  pose proof (weight_sum_nonneg cs) as Hn. unfold weight_sum in Hn.
  intros [->|Hc]; [lia|]. specialize (IH Hc). lia.
Qed.

(** X8: [total_weight] is never negative, and it is 0 (the case in which
    [lootrate] refuses to report and [probability] returns 0 for any card)
    exactly when no loaded card has a positive weight. *)
Theorem total_weight_zero (self : repo) :
  0 <= total_weight self /\
  (total_weight self <= 0 <-> forall c, In c (_cards self) -> Card.weight c <= 0) /\
  (total_weight self <= 0 -> forall card, probability self card = 0%Q).
Proof.
  rewrite total_weight_sum. pose proof (weight_sum_nonneg (_cards self)) as Hn.
  split; [exact Hn|]. split.
  - rewrite <- weight_sum_zero. lia.
  - intros H card. unfold probability. rewrite total_weight_sum.
    now replace (weight_sum (_cards self) >? 0) with false
      by (symmetry; rewrite Z.gtb_ltb; apply Z.ltb_ge; lia).
Qed.

Lemma total_weight_zero_witness :
  total_weight keyless_repo > 0 /\
  (total_weight (mk_repo [Card.mk "z" "Zero" "" "" 0] []) <= 0 /\
   probability (mk_repo [Card.mk "z" "Zero" "" "" 0] []) Alpha = 0%Q).
Proof.
  split; [reflexivity|].
  assert (H : total_weight (mk_repo [Card.mk "z" "Zero" "" "" 0] []) <= 0)
    by (vm_compute; discriminate).
  split; [exact H|].
  exact (proj2 (proj2 (total_weight_zero (mk_repo [Card.mk "z" "Zero" "" "" 0] [])))
           H Alpha).
Defined.



(** ** The tier of a card, again *)

Lemma find_highest ts w t :
  StronglySorted (fun a b => Tier.min_weight b <= Tier.min_weight a) ts ->
  find (fun t => Tier.min_weight t <=? w) ts = Some t ->
  In t ts /\ Tier.min_weight t <= w /\
  forall t', In t' ts -> Tier.min_weight t' <= w ->
             Tier.min_weight t' <= Tier.min_weight t.
Proof.
  induction 1 as [|x l Hl IH Hx]; cbn; [discriminate|].
  destruct (Tier.min_weight x <=? w) eqn:E.
  - intros [= <-]. apply Z.leb_le in E. split; [now left|]. split; [exact E|].
    intros t' [<-|Ht'] _; [lia|]. rewrite Forall_forall in Hx. now apply Hx.
  - intros Hf. destruct (IH Hf) as (Hin & Hw & Hmax). apply Z.leb_gt in E.
    split; [now right|]. split; [exact Hw|].
    intros t' [<-|Ht'] Hle; [lia | now apply Hmax].
Qed.

(** X10: in every state a program can hold, the tier a card falls in is a
    loaded tier whose threshold the card's weight reaches and which has the
    highest threshold among those; a card falls in no tier, and gets
    "Inconnu", exactly when its weight is below every threshold. *)
Theorem tier_for_card_highest
  (py_str_other : json -> string) (py_int_other : json -> option Z)
  (self : repo) (card : Card.t) :
  reachable py_str_other py_int_other self ->
  match tier_of self card with
  | Some t =>
      tier_for_card self card = Tier.name t /\
      In t (_tiers self) /\ Tier.min_weight t <= Card.weight card /\
      forall t', In t' (_tiers self) -> Tier.min_weight t' <= Card.weight card ->
                 Tier.min_weight t' <= Tier.min_weight t
  | None =>
      tier_for_card self card = "Inconnu" /\
      forall t, In t (_tiers self) -> Card.weight card < Tier.min_weight t
  end.
Proof.
  intros Hr. apply reachable_sorted in Hr. rewrite tier_for_card_of.
  unfold tier_of in *. 
  destruct (find (fun t => Tier.min_weight t <=? Card.weight card) (_tiers self))
    as [t|] eqn:E.
  - split; [reflexivity|]. exact (find_highest _ _ _ Hr E).
  - split; [reflexivity|]. intros t Ht.
    pose proof (find_none _ _ E t Ht) as H. cbn in H. now apply Z.leb_gt in H.
Qed.

Lemma tier_for_card_highest_witness :
  reachable str_unused int_unused scenario_repo /\
  match tier_of scenario_repo Beta with
  | Some t =>
      tier_for_card scenario_repo Beta = Tier.name t /\
      In t (_tiers scenario_repo) /\ Tier.min_weight t <= Card.weight Beta /\
      forall t', In t' (_tiers scenario_repo) -> Tier.min_weight t' <= Card.weight Beta ->
                 Tier.min_weight t' <= Tier.min_weight t
  | None =>
      tier_for_card scenario_repo Beta = "Inconnu" /\
      forall t, In t (_tiers scenario_repo) -> Card.weight Beta < Tier.min_weight t
  end.
Proof.
  assert (Hr : reachable str_unused int_unused scenario_repo)
    by (apply (reachable_new _ _ scenario_files); reflexivity).
  split; [exact Hr|].
  exact (tier_for_card_highest str_unused int_unused scenario_repo Beta Hr).
Defined.

(** ** [summary_by_tier], again *)

Section Dedup.

Lemma existsb_eqb_In k l : existsb (String.eqb k) l = true <-> In k l.
Proof.
  rewrite existsb_exists. split.
  - intros (x & Hx & E). apply String.eqb_eq in E. now subst.
  - intros H. exists k. split; [exact H | apply String.eqb_refl].
Qed.

Lemma existsb_same_members k l l' :
  (forall x, In x l <-> In x l') ->
  existsb (String.eqb k) l = existsb (String.eqb k) l'.
Proof.
  intros H. destruct (existsb (String.eqb k) l) eqn:E.
  - symmetry. apply existsb_eqb_In, H, existsb_eqb_In, E.
  - destruct (existsb (String.eqb k) l') eqn:E'; [|reflexivity].
    apply existsb_eqb_In, H, existsb_eqb_In in E'. congruence.
Qed.

Lemma dedup_step_In seen k x : In x (dedup_step seen k) <-> In x seen \/ x = k.
Proof.
  unfold dedup_step. destruct (existsb (String.eqb k) seen) eqn:E.
  - apply existsb_eqb_In in E. split; [now left | intros [H | ->]; assumption].
  - rewrite in_app_iff. cbn. intuition auto.
Qed.

Lemma dedup_onto_In seen l x : In x (dedup_onto seen l) <-> In x seen \/ In x l.
Proof.
  unfold dedup_onto. revert seen; induction l as [|k l IH]; intros seen; cbn.
  - tauto.
  - rewrite IH, dedup_step_In. split; intros H; intuition auto.
Qed.

Lemma dedup_first_In l x : In x (dedup_first l) <-> In x l.
Proof. unfold dedup_first. rewrite dedup_onto_In. cbn. tauto. Qed.

Lemma dedup_onto_app seen l l' :
  dedup_onto seen (l ++ l') = dedup_onto (dedup_onto seen l) l'.
Proof. unfold dedup_onto. apply fold_left_app. Qed.

(** Removing repetitions from a list before it is merged changes nothing. *)
Lemma dedup_onto_dedup A B L :
  dedup_onto A (dedup_onto B L) = dedup_onto (dedup_onto A B) L.
Proof.
  revert B; induction L as [|x L IH]; intros B; [reflexivity|].
  change (dedup_onto B (x :: L)) with (dedup_onto (dedup_step B x) L).
  change (dedup_onto (dedup_onto A B) (x :: L))
    with (dedup_onto (dedup_step (dedup_onto A B) x) L).
  rewrite IH. f_equal. unfold dedup_step at 1.
  destruct (existsb (String.eqb x) B) eqn:E.
  - unfold dedup_step.
    replace (existsb (String.eqb x) (dedup_onto A B)) with true; [reflexivity|].
    symmetry. apply existsb_eqb_In, dedup_onto_In. right. now apply existsb_eqb_In.
  - rewrite dedup_onto_app. reflexivity.
Qed.

Lemma dedup_onto_nodup seen l : NoDup seen -> NoDup (dedup_onto seen l).
Proof.
  unfold dedup_onto. revert seen; induction l as [|k l IH]; intros seen H; cbn;
    [exact H|].
  apply IH. unfold dedup_step. destruct (existsb (String.eqb k) seen) eqn:E; [exact H|].
  apply NoDup_app; [exact H | repeat constructor; intros [] |].
  intros x Hx [<-|[]]. apply existsb_eqb_In in Hx. congruence.
Qed.

Context {V : Type}.

Lemma dict_mem_existsb k (d : list (string * V)) :
  dict_mem k d = existsb (String.eqb k) (map fst d).
Proof.
  induction d as [|[k' v'] d IH]; cbn; [reflexivity|].
  now rewrite IH, String.eqb_sym.
Qed.

Lemma dict_set_dedup k (v : V) d : map fst (dict_set k v d) = dedup_step (map fst d) k.
Proof.
  unfold dedup_step. induction d as [|[k' v'] d IH]; cbn; [reflexivity|].
  rewrite (String.eqb_sym k k').
  destruct (String.eqb k' k); cbn; [reflexivity|].
  rewrite IH. now destruct (existsb (String.eqb k) (map fst d)).
Qed.

Lemma dict_get_set k k' (v default : V) d :
  dict_get (dict_set k v d) k' default =
  if String.eqb k k' then v else dict_get d k' default.
Proof.
  induction d as [|[k0 v0] d IH]; cbn.
  - reflexivity.
  - destruct (String.eqb_spec k0 k) as [->|Hne]; cbn.
    + destruct (String.eqb_spec k k'); reflexivity.
    + rewrite IH. destruct (String.eqb_spec k0 k') as [->|Hne'];
        [|reflexivity].
      destruct (String.eqb_spec k k'); [congruence | reflexivity].
Qed.

Lemma dict_get_of_in k (v default : V) d :
  NoDup (map fst d) -> In (k, v) d -> dict_get d k default = v.
Proof.
  induction d as [|[k0 v0] d IH]; cbn; [contradiction|].
  intros Hn. inversion Hn as [|? ? Hk Hd]; subst.
  intros [[= -> ->]|Hin]; [now rewrite String.eqb_refl|].
  destruct (String.eqb_spec k0 k) as [->|_]; [|now apply IH].
  destruct Hk. apply (in_map fst) in Hin. exact Hin.
Qed.

Lemma dict_in_of_get k (default : V) d :
  In k (map fst d) -> In (k, dict_get d k default) d.
Proof. intros H. apply dict_get_in. now apply dict_mem_keys. Qed.

End Dedup.

Section SummaryMore.

Variable self : repo.

Lemma summary_sums_keys : map fst (summary_sums self) = dedup_first (labels self).
Proof.
  unfold summary_sums, dedup_first, labels.
  assert (G : forall cs acc,
    map fst (fold_left
               (fun sums c =>
                  let tier := tier_for_card self c in
                  dict_set tier (dict_get sums tier 0 + Z.max 0 (Card.weight c)) sums)
               cs acc)
    = dedup_onto (map fst acc) (map (tier_for_card self) cs)).
  { induction cs as [|c cs IH]; intros acc; [reflexivity|].
    cbn [fold_left map]. refine (eq_trans (IH _) _). now rewrite dict_set_dedup. }
  apply (G (_cards self) []).
Qed.

Lemma summary_sums_get k : dict_get (summary_sums self) k 0 = label_weight self k.
Proof.
  unfold summary_sums, label_weight.
  assert (G : forall cs acc,
    dict_get (fold_left
                (fun sums c =>
                   let tier := tier_for_card self c in
                   dict_set tier (dict_get sums tier 0 + Z.max 0 (Card.weight c)) sums)
                cs acc) k 0
    = dict_get acc k 0
      + weight_sum (filter (fun c => String.eqb (tier_for_card self c) k) cs)).
  { induction cs as [|c cs IH]; intros acc.
    - cbn. lia.
    - cbn [fold_left filter]. refine (eq_trans (IH _) _). rewrite dict_get_set.
      destruct (String.eqb_spec (tier_for_card self c) k) as [->|Hne].
      + change (weight_sum (c :: ?l)) with (Z.max 0 (Card.weight c) + weight_sum l).
        lia.
      + reflexivity. }
  refine (eq_trans (G (_cards self) []) _). cbn [dict_get]. lia.
Qed.

Lemma summary_sums_in k w :
  In (k, w) (summary_sums self) <-> In k (labels self) /\ w = label_weight self k.
Proof.
  destruct (summary_sums_spec self) as [Hn _].
  rewrite <- dedup_first_In, <- summary_sums_keys, <- summary_sums_get. split.
  - intros H. split; [exact (in_map fst _ _ H)|].
    symmetry. now apply dict_get_of_in.
  - intros [H ->]. now apply dict_in_of_get.
Qed.

Lemma summary_ordered_keys tiers (out : list (string * (Z * Q))) :
  map fst (summary_ordered tiers out) =
  dedup_first (filter (fun n => dict_mem n out) (map Tier.name tiers)).
Proof.
  unfold summary_ordered, dedup_first.
  assert (G : forall acc,
    map fst (fold_left
               (fun ordered t =>
                  if dict_mem (Tier.name t) out
                  then dict_set (Tier.name t) (dict_get out (Tier.name t) (0, 0%Q)) ordered
                  else ordered)
               tiers acc)
    = dedup_onto (map fst acc) (filter (fun n => dict_mem n out) (map Tier.name tiers))).
  { induction tiers as [|t ts IH]; intros acc; [reflexivity|].
    cbn [fold_left map filter]. refine (eq_trans (IH _) _).
    destruct (dict_mem (Tier.name t) out); [|reflexivity].
    now rewrite dict_set_dedup. }
  apply (G []).
Qed.

Lemma summary_rest_keys (out ordered : list (string * (Z * Q))) :
  map fst (summary_rest out ordered) = dedup_onto (map fst ordered) (map fst out).
Proof.
  unfold summary_rest. revert ordered; induction out as [|[k v] out IH]; intros ordered;
    [reflexivity|].
  cbn [fold_left map fst snd]. refine (eq_trans (IH _) _).
  change (dedup_onto (map fst ordered) (k :: map fst out))
    with (dedup_onto (dedup_step (map fst ordered) k) (map fst out)).
  f_equal. destruct (dict_mem k ordered) eqn:E; cbn [negb].
  - unfold dedup_step. now rewrite <- dict_mem_existsb, E.
  - apply dict_set_dedup.
Qed.

End SummaryMore.

(** X11: [summary_by_tier] has one entry per tier label that at least one
    loaded card gets, and no other: the entry of a label holds the sum of
    [max(0, weight)] over the loaded cards with that label, and that sum's
    percentage of the total weight (0 when the total is 0). *)
Theorem summary_entries (self : repo) (tier : string) (wsum : Z) (pct : Q) :
  NoDup (map fst (summary_by_tier self)) /\
  (In (tier, (wsum, pct)) (summary_by_tier self) <->
   (exists c, In c (_cards self) /\ tier_for_card self c = tier) /\
   wsum = label_weight self tier /\
   pct = pct_of (total_weight self) wsum).
Proof.
  pose proof (summary_by_tier_perm self) as Hp.
  destruct (summary_sums_spec self) as [Hn _]. split.
  - apply (Permutation_NoDup (Permutation_map fst Hp)).
    rewrite map_map. exact Hn.
  - assert (Hl : In tier (labels self) <->
                 exists c, In c (_cards self) /\ tier_for_card self c = tier).
    { unfold labels. rewrite in_map_iff. split; intros (c & H1 & H2); exists c; tauto. }
    rewrite <- Hl. split.
    + intros H. apply (Permutation_in _ (Permutation_sym Hp)), in_map_iff in H.
      destruct H as ([k w] & [= <- <- <-] & Hin). cbn [fst snd].
      apply summary_sums_in in Hin. tauto.
    + intros (H1 & -> & ->). apply (Permutation_in _ Hp), in_map_iff.
      exists (tier, label_weight self tier). split; [reflexivity|].
      now apply summary_sums_in.
Qed.

(** X12: the order of [summary_by_tier]: first the labels that are names of
    loaded tiers, in the order of the tier list (a repeated name counted at
    its first place), then the other labels ("Inconnu") in the order in which
    the cards meet them. *)
Theorem summary_order (self : repo) :
  map fst (summary_by_tier self) =
  dedup_first
    (filter (fun name => existsb (String.eqb name) (labels self))
            (map Tier.name (_tiers self))
     ++ labels self).
Proof.
  destruct (summary_sums_spec self) as [Hn _].
  unfold summary_by_tier. cbv zeta. rewrite (summary_out_map _ _ Hn).
  set (out := map _ (summary_sums self)).
  assert (Hk : map fst out = dedup_first (labels self)).
  { unfold out. rewrite map_map. cbn [fst]. apply summary_sums_keys. }
  rewrite summary_rest_keys, summary_ordered_keys, Hk.
  assert (Hf : filter (fun n => dict_mem n out) (map Tier.name (_tiers self))
               = filter (fun name => existsb (String.eqb name) (labels self))
                        (map Tier.name (_tiers self))).
  { apply filter_ext. intros name.
    rewrite dict_mem_existsb, Hk. apply existsb_same_members.
    intros x. apply dedup_first_In. }
  rewrite Hf.
  set (F := filter _ (map Tier.name (_tiers self))).
  unfold dedup_first at 2.
  rewrite (dedup_onto_dedup (dedup_first F) [] (labels self)).
  unfold dedup_first. now rewrite dedup_onto_app.
Qed.

(** ** [top_cards] *)

Lemma sorted_app_inv {A : Type} (R : A -> A -> Prop) (l1 l2 : list A) :
  StronglySorted R (l1 ++ l2) ->
  StronglySorted R l1 /\ StronglySorted R l2 /\
  forall a b, In a l1 -> In b l2 -> R a b.
Proof.
  induction l1 as [|x l1 IH]; cbn; intros H.
  - split; [constructor|]. split; [exact H | intros a b []].
  - inversion H as [|? ? Hs Hx]; subst. destruct (IH Hs) as (H1 & H2 & H12).
    apply Forall_app in Hx. destruct Hx as [Hx1 Hx2]. split; [now constructor|].
    split; [exact H2|]. intros a b [<-|Ha] Hb; [|now apply H12].
    rewrite Forall_forall in Hx2. now apply Hx2.
Qed.

(** X13: [top_cards(n)] returns [min(max(1, n), number of loaded cards)]
    cards: never more than there are, one (not none) when [n <= 0] and the
    list is not empty, and all of them when [n] is at least their number. *)
Theorem top_cards_length (self : repo) (n : Z) :
  Z.of_nat (List.length (top_cards self n)) =
  Z.min (Z.max 1 n) (Z.of_nat (List.length (_cards self))) /\
  (_cards self <> [] -> top_cards self n <> []) /\
  (Z.of_nat (List.length (_cards self)) <= n ->
   Permutation (_cards self) (top_cards self n)).
Proof.
  unfold top_cards.
  pose proof (Permutation_length (sorted_desc_perm Card.weight (_cards self))) as Hl.
  split; [|split].
  - rewrite length_firstn, <- Hl. lia.
  - intros Hne E. apply (f_equal (@List.length _)) in E.
    rewrite length_firstn, <- Hl in E. cbn in E.
    destruct (_cards self); [congruence | cbn in E; lia].
  - intros Hn. rewrite firstn_all2 by lia. apply sorted_desc_perm.
Qed.

Lemma top_cards_length_witness :
  _cards scenario_repo <> [] /\ top_cards scenario_repo (-3) <> [] /\
  Z.of_nat (List.length (_cards scenario_repo)) <= 5 /\
  Permutation (_cards scenario_repo) (top_cards scenario_repo 5).
Proof.
  assert (H1 : _cards scenario_repo <> []) by discriminate.
  assert (H2 : Z.of_nat (List.length (_cards scenario_repo)) <= 5)
    by (vm_compute; discriminate).
  split; [exact H1|].
  split; [exact (proj1 (proj2 (top_cards_length scenario_repo (-3))) H1)|].
  split; [exact H2|].
  exact (proj2 (proj2 (top_cards_length scenario_repo 5)) H2).
Defined.

(** X14: the cards [top_cards] returns are loaded cards by decreasing weight;
    none of those it leaves out is heavier than one it returns; and among
    cards of equal weight the loaded order is kept, the earlier ones being
    returned first. *)
Theorem top_cards_best (self : repo) (n : Z) :
  exists rest,
    Permutation (_cards self) (top_cards self n ++ rest) /\
    StronglySorted (fun a b => Card.weight b <= Card.weight a) (top_cards self n) /\
    (forall a b, In a (top_cards self n) -> In b rest ->
                 Card.weight b <= Card.weight a) /\
    (forall w,
        filter (fun c => Card.weight c =? w) (_cards self) =
        filter (fun c => Card.weight c =? w) (top_cards self n)
        ++ filter (fun c => Card.weight c =? w) rest).
Proof.
  unfold top_cards. set (k := Z.to_nat (Z.max 1 n)).
  set (sorted := sorted_desc Card.weight (_cards self)).
  exists (skipn k sorted).
  pose proof (sorted_desc_sorted Card.weight (_cards self)) as Hs. fold sorted in Hs.
  rewrite <- (firstn_skipn k sorted) in Hs. apply sorted_app_inv in Hs.
  destruct Hs as (H1 & _ & H12).
  split; [rewrite firstn_skipn; apply sorted_desc_perm|].
  split; [exact H1|]. split; [exact H12|].
  intros w. rewrite <- filter_app, firstn_skipn. symmetry.
  apply (sorted_desc_filter Card.weight).
Qed.

(** ** The chunks of [lootrate], again *)

Section Greedy.

Lemma nth_error_last {A : Type} (l : list A) (x : A) :
  nth_error (l ++ [x]) (List.length l) = Some x.
Proof. rewrite nth_error_app2 by lia. now rewrite Nat.sub_diag. Qed.

Lemma greedy_snoc F C line rest :
  greedy (F ++ [C]) -> chunk_cost C + line_cost line > 1024 ->
  greedy ((F ++ [C]) ++ [line :: rest]).
Proof.
  intros Hg Hc i A B HA HB.
  assert (Hlen : List.length (F ++ [C]) = S (List.length F))
    by (rewrite length_app; cbn; lia).
  destruct (Nat.lt_trichotomy (S i) (List.length (F ++ [C]))) as [Hi|[Hi|Hi]].
  - rewrite nth_error_app1 in HA, HB by lia. exact (Hg i A B HA HB).
  - rewrite Hi, nth_error_last in HB. injection HB as <-.
    rewrite nth_error_app1 in HA by lia.
    assert (i = List.length F) by lia. subst i.
    rewrite nth_error_last in HA. injection HA as <-.
    now exists line, rest.
  - assert (HN : nth_error ((F ++ [C]) ++ [line :: rest]) (S i) = None).
    { apply nth_error_None. rewrite length_app. cbn. lia. }
    congruence.
Qed.

Lemma greedy_grow F C line :
  greedy (F ++ [C]) -> greedy (F ++ [C ++ [line]]).
Proof.
  intros Hg i A B HA HB.
  destruct (Nat.lt_trichotomy (S i) (List.length F)) as [Hi|[Hi|Hi]].
  - rewrite nth_error_app1 in HA, HB by lia.
    apply (Hg i A B); rewrite nth_error_app1 by lia; assumption.
  - rewrite Hi, nth_error_last in HB. injection HB as <-.
    rewrite nth_error_app1 in HA by lia.
    destruct (Hg i A C) as (l & r & -> & Hc).
    + now rewrite nth_error_app1 by lia.
    + rewrite Hi. apply nth_error_last.
    + exists l, (r ++ [line]). split; [reflexivity | exact Hc].
  - assert (HN : nth_error (F ++ [C ++ [line]]) (S i) = None).
    { apply nth_error_None. rewrite length_app. cbn. lia. }
    congruence.
Qed.

Lemma greedy_single C : greedy [C].
Proof. intros i A B _ HB. destruct i; discriminate. Qed.

Lemma greedy_step st line :
  current_len st = chunk_cost (current st) ->
  (current st = [] -> field_chunks st = []) ->
  greedy (chunks_so_far st) ->
  current_len (chunk_step st line) = chunk_cost (current (chunk_step st line)) /\
  current (chunk_step st line) <> [] /\
  greedy (chunks_so_far (chunk_step st line)).
Proof.
  intros Hn He Hg. unfold chunk_step, chunks_so_far in *.
  destruct (current st) as [|x r] eqn:Ec; cbn [is_nil negb andb] in *.
  - change (chunk_cost []) with 0 in Hn. rewrite (He eq_refl). cbn.
    split; [unfold line_cost; lia|].
    split; [discriminate | apply greedy_single].
  - destruct (current_len st + (str_len line + 1) >? 1024) eqn:E;
      cbn [current current_len field_chunks is_nil app].
    + split; [change (chunk_cost [line]) with (line_cost line + 0);
              unfold line_cost; lia|].
      split; [discriminate|].
      apply greedy_snoc; [exact Hg|].
      apply Z.gtb_gt in E. rewrite <- Hn. unfold line_cost. lia.
    + split.
      * rewrite Hn. change (x :: r ++ [line]) with ((x :: r) ++ [line]).
        rewrite chunk_cost_app. change (chunk_cost [line]) with (line_cost line + 0).
        unfold line_cost. lia.
      * split; [discriminate|].
        change (x :: r ++ [line]) with ((x :: r) ++ [line]).
        now apply greedy_grow.
Qed.

Lemma greedy_loop lines st :
  current_len st = chunk_cost (current st) ->
  (current st = [] -> field_chunks st = []) ->
  greedy (chunks_so_far st) ->
  greedy (chunks_so_far (fold_left chunk_step lines st)).
Proof.
  revert st; induction lines as [|line lines IH]; intros st Hn He Hg; [exact Hg|].
  cbn [fold_left]. destruct (greedy_step st line Hn He Hg) as (H1 & H2 & H3).
  apply IH; [exact H1 | intros E; contradiction | exact H3].
Qed.

Lemma lootrate_chunks_so_far lines :
  lootrate_chunks lines = chunks_so_far (fold_left chunk_step lines (mk_chunker [] [] 0)).
Proof.
  unfold lootrate_chunks, chunks_so_far.
  now destruct (is_nil (current (fold_left chunk_step lines (mk_chunker [] [] 0)))).
Qed.

End Greedy.

(** X15: [lootrate] never produces an empty chunk, produces no chunk at all
    only for no line, and cuts greedily: the line a chunk starts with did not
    fit in the chunk before it (that chunk's lines, each counted with one
    separator, plus this line and its separator exceed 1024). *)
Theorem lootrate_chunks_greedy (all_lines : list string) :
  Forall (fun chunk => chunk <> []) (lootrate_chunks all_lines) /\
  (lootrate_chunks all_lines = [] <-> all_lines = []) /\
  greedy (lootrate_chunks all_lines).
Proof.
  destruct (lootrate_chunks_inv all_lines) as [Hc Hok]. split; [|split].
  - eapply Forall_impl; [|exact Hok]. now intros chunk [H _].
  - split.
    + intros E. rewrite E in Hc. now rewrite <- Hc.
    + intros ->. reflexivity.
  - rewrite lootrate_chunks_so_far. apply greedy_loop; cbn.
    + reflexivity.
    + reflexivity.
    + intros i A B HA. destruct i; discriminate.
Qed.

(** ** The [lootrate] command *)

Lemma add_fields_values i chunks :
  map snd (add_fields i chunks) = map join_lines chunks.
Proof.
  revert i; induction chunks as [|c r IH]; intros i; cbn; [reflexivity|].
  now rewrite IH.
Qed.

Lemma add_fields_names i chunks j name value :
  nth_error (add_fields i chunks) j = Some (name, value) ->
  name = field_name (i + j).
Proof.
  revert i j; induction chunks as [|c r IH]; intros i j; cbn.
  - destruct j; discriminate.
  - destruct j as [|j]; cbn.
    + intros [= <- _]. now rewrite Nat.add_0_r.
    + intros H. apply IH in H. now rewrite Nat.add_succ_r.
Qed.

Lemma weight_sum_pos cs :
  weight_sum cs > 0 -> exists c, In c cs /\ Card.weight c > 0.
Proof.
  unfold weight_sum. induction cs as [|x cs IH]; cbn [fold_right]; [lia|].
  intros H. destruct (Z_le_gt_dec (Card.weight x) 0) as [Hx|Hx].
  - destruct IH as (c & Hc & Hw); [lia|]. exists c. split; [now right | exact Hw].
  - exists x. split; [now left | exact Hx].
Qed.


(** ** The collection scan of [verify] *)

Section VerifyFacts.

Variable float_truthy : string -> bool.
Variable target : string.

Local Abbreviation text_of := (collection_text float_truthy).
Local Abbreviation scan := (scan_items float_truthy target).

(** The asset is readable and is not of the wanted collection. *)
Local Abbreviation passed_over x :=
  (exists t, text_of x = Ok t /\ ~ occurs_in (normalize target) t).

Lemma found_response items :
  found float_truthy target (response_of items) = scan items.
Proof. unfold found, response_of. cbn. now destruct items. Qed.

Lemma scan_items_cases items :
  match scan items with
  | Ok true =>
      exists before it after text,
        items = before ++ it :: after /\ text_of it = Ok text /\
        occurs_in (normalize target) text /\
        forall x, In x before -> passed_over x
  | Ok false => forall x, In x items -> passed_over x
  | Raise e =>
      exists before it after,
        items = before ++ it :: after /\ text_of it = Raise e /\
        forall x, In x before -> passed_over x
  end.
Proof.
  induction items as [|it items IH]; cbn [scan_items]; [intros x []|].
  destruct (text_of it) as [text|e] eqn:Et.
  - destruct (contains (normalize target) text) eqn:Ec.
    + apply contains_spec in Ec. exists [], it, items, text.
      repeat split; [exact Et | exact Ec | intros x []].
    + assert (Hp : passed_over it).
      { exists text. split; [exact Et|]. intros O. apply contains_spec in O. congruence. }
      destruct (scan items) as [[|]|e].
      * destruct IH as (b & i & a & t & -> & H1 & H2 & H3).
        exists (it :: b), i, a, t. repeat split; [exact H1 | exact H2 |].
        intros x [<-|Hx]; [exact Hp | now apply H3].
      * intros x [<-|Hx]; [exact Hp | now apply IH].
      * destruct IH as (b & i & a & -> & H1 & H3).
        exists (it :: b), i, a. repeat split; [exact H1|].
        intros x [<-|Hx]; [exact Hp | now apply H3].
  - exists [], it, items. repeat split; [exact Et | intros x []].
Qed.

Lemma scan_items_readable items :
  (forall x, In x items -> exists t, text_of x = Ok t) ->
  exists b, scan items = Ok b /\
    (b = true <->
     exists it text, In it items /\ text_of it = Ok text /\
                     occurs_in (normalize target) text).
Proof.
  induction items as [|it items IH]; intros Hr; cbn [scan_items].
  - exists false. split; [reflexivity|]. split; [discriminate | intros (i & t & [] & _)].
  - destruct (Hr it (or_introl eq_refl)) as [text Et]. rewrite Et.
    destruct (contains (normalize target) text) eqn:Ec.
    + exists true. split; [reflexivity|]. split; [|reflexivity]. intros _.
      exists it, text. split; [now left|]. split; [exact Et | now apply contains_spec].
    + destruct IH as (b & Hb & Hiff); [intros x Hx; apply Hr; now right|].
      exists b. split; [exact Hb|]. rewrite Hiff. split.
      * intros (i & t & Hi & H1 & H2). exists i, t. split; [now right | now split].
      * intros (i & t & [<-|Hi] & H1 & H2).
        -- rewrite Et in H1. injection H1 as <-. apply contains_spec in H2. congruence.
        -- now exists i, t.
Qed.

Lemma contains_empty s : contains EmptyString s = true.
Proof. destruct s; reflexivity. Qed.

End VerifyFacts.

Lemma grouping_first_tagged float_truthy pre g post :
  (forall x, In x pre ->
     exists m, x = JDict m /\ is_str (dict_get m "group_key" JNull) "collection" = false) ->
  is_str (dict_get g "group_key" JNull) "collection" = true ->
  grouping_collection float_truthy (pre ++ JDict g :: post)
  = Ok (py_or float_truthy (dict_get g "group_value" JNull) (JStr "")).
Proof.
  intros Hpre Hg. induction pre as [|x pre IH]; cbn [app grouping_collection py_get].
  - now rewrite Hg.
  - destruct (Hpre x (or_introl eq_refl)) as (m & -> & Hm). cbn [py_get]. rewrite Hm.
    apply IH. intros y Hy. apply Hpre. now right.
Qed.

Lemma normalize_value_or float_truthy v :
  normalize_value float_truthy (py_or float_truthy v (JStr ""))
  = normalize_value float_truthy v.
Proof.
  unfold normalize_value, py_or. destruct (truthy float_truthy v) eqn:E.
  - now rewrite E.
  - reflexivity.
Qed.

Lemma item_collection_grouping float_truthy entries :
  entries <> [] ->
  item_collection float_truthy (JDict [("grouping", JList entries)])
  = grouping_collection float_truthy entries.
Proof. intros H. destruct entries; [congruence | reflexivity]. Qed.

(** X17: the scan of [verify] stops at the first asset of the wanted
    collection. On a response listing [items], it answers "found" when some
    asset's normalised collection name contains the normalised configured
    name and every asset before it is readable and of another collection;
    "not found" when every asset is readable and of another collection; and
    it raises when an asset's collection name cannot be read before any match
    (an unreadable asset after the match is never looked at). *)
Theorem found_first_match
  (float_truthy : string -> bool) (target : string) (items : list json) :
  match found float_truthy target (response_of items) with
  | Ok true =>
      exists before it after text,
        items = before ++ it :: after /\
        collection_text float_truthy it = Ok text /\
        occurs_in (normalize target) text /\
        forall x, In x before ->
          exists t, collection_text float_truthy x = Ok t /\
                    ~ occurs_in (normalize target) t
  | Ok false =>
      forall x, In x items ->
        exists t, collection_text float_truthy x = Ok t /\
                  ~ occurs_in (normalize target) t
  | Raise e =>
      exists before it after,
        items = before ++ it :: after /\
        collection_text float_truthy it = Raise e /\
        forall x, In x before ->
          exists t, collection_text float_truthy x = Ok t /\
                    ~ occurs_in (normalize target) t
  end.
Proof. rewrite found_response. apply scan_items_cases. Qed.



(** X19: with a configured collection name that is blank, the scan accepts
    any response whose first asset has a readable collection name, whatever
    that name is. *)
Theorem found_blank_target
  (float_truthy : string -> bool) (target : string) (it : json) (rest : list json)
  (text : string) :
  blank target ->
  collection_text float_truthy it = Ok text ->
  found float_truthy target (response_of (it :: rest)) = Ok true.
Proof.
  intros Hb Ht. rewrite found_response. cbn [scan_items]. rewrite Ht.
  apply normalize_empty_blank in Hb. now rewrite Hb, contains_empty.
Qed.

Lemma found_blank_target_witness :
  blank " " /\
  collection_text no_float (asset_with_grouping "Other") = Ok "other" /\
  found no_float " " (response_of [asset_with_grouping "Other"]) = Ok true.
Proof.
  assert (Hb : blank " ") by (repeat constructor).
  assert (Ht : collection_text no_float (asset_with_grouping "Other") = Ok "other")
    by reflexivity.
  split; [exact Hb|]. split; [exact Ht|].
  exact (found_blank_target no_float " " (asset_with_grouping "Other") [] "other" Hb Ht).
Defined.


